(** * VoxNet anchor geometry: [models/rpn_utils.py]

    A shallow embedding of the anchor-box and IoU utilities.

    Numbers.  The arrays of the module hold numpy floats.  The conversions,
    the tiling and the IoU functions are modelled on exact rationals [Q]:
    those statements are about the arithmetic the code writes down, without
    rounding error, and equality of numbers is [Qeq] ([==]).
    [generate_anchors] takes square roots, so it is modelled on the real
    numbers, with a value [NotNum] for the inf and nan of a division by
    zero and of the root of a negative number.  Where the rounding of
    binary64 decides a statement, the IoU of one pair is evaluated on
    Rocq's binary64 floats.

    Arrays.  A box set is an array of shape (n, 4); it is modelled as a
    list of rows, each row a [Box] with its four columns.  Arrays that the
    code updates in place live in a [heap] and are passed by reference. *)

From Stdlib Require Import List Bool Arith ZArith QArith Qminmax Lia Reals
  Psatz.
From Stdlib Require PrimFloat.
Import ListNotations.

Set Implicit Arguments.

(** ** Rows and columns *)

(** One row of an (n, 4) array.  In centre form the columns are
    (x_ctr, y_ctr, width, height), in corner form (x_min, y_min, x_max,
    y_max). *)
Record Box : Type := mkBox { b0 : Q; b1 : Q; b2 : Q; b3 : Q }.

(** The column index of [a[:, c]]. *)
Inductive col : Type := C0 | C1 | C2 | C3.

Definition getc (c : col) (b : Box) : Q :=
  match c with
  | C0 => b0 b
  | C1 => b1 b
  | C2 => b2 b
  | C3 => b3 b
  end.

Definition setc (c : col) (x : Q) (b : Box) : Box :=
  match c with
  | C0 => mkBox x (b1 b) (b2 b) (b3 b)
  | C1 => mkBox (b0 b) x (b2 b) (b3 b)
  | C2 => mkBox (b0 b) (b1 b) x (b3 b)
  | C3 => mkBox (b0 b) (b1 b) (b2 b) x
  end.

(** Rows compared column by column. *)
Definition Box_eq (a b : Box) : Prop :=
  b0 a == b0 b /\ b1 a == b1 b /\ b2 a == b2 b /\ b3 a == b3 b.

(** An array of shape (n, 4). *)
Definition array : Type := list Box.

(** Elementwise combination of two one-dimensional arrays of one length. *)
Fixpoint map2 {A B C : Type} (f : A -> B -> C) (l : list A) (m : list B)
  : list C :=
  match l, m with
  | x :: l', y :: m' => f x y :: map2 f l' m'
  | _, _ => []
  end.

(** [a[:, c]], of shape (n,). *)
Definition getcol (c : col) (a : array) : list Q := map (getc c) a.

(** [a[:, c] = v] for [v] of shape (n,). *)
Definition setcol (c : col) (v : list Q) (a : array) : array :=
  map2 (fun b x => setc c x b) a v.

(** [k * v] for a scalar [k]. *)
Definition scale (k : Q) (v : list Q) : list Q := map (Qmult k) v.

(** ** The store of array objects *)

(** Python errors the model can raise. *)
Inductive exn : Type := ValueError | IndexError | NameError.

Inductive result (A : Type) : Type :=
| Ok (a : A)
| Raise (e : exn).

Arguments Raise {A} e.

(** Array objects are addressed by their position in the store. *)
Definition ref : Type := nat.
Definition heap : Type := list array.

(** Computations that read and update the store and may raise. *)
Definition M (A : Type) : Type := heap -> heap * result A.

Definition ret {A : Type} (a : A) : M A := fun h => (h, Ok a).

Definition raise {A : Type} (e : exn) : M A := fun h => (h, Raise e).

Definition bind {A B : Type} (m : M A) (k : A -> M B) : M B :=
  fun h =>
    match m h with
    | (h', Ok a) => k a h'
    | (h', Raise e) => (h', Raise e)
    end.

Notation "x <- m ;; k" := (bind m (fun x => k))
  (at level 61, m at next level, right associativity).
Notation "m ;;; k" := (bind m (fun _ => k))
  (at level 61, right associativity).

(** Replace the object at position [r]. *)
Fixpoint heap_set (r : ref) (a : array) (h : heap) : heap :=
  match h, r with
  | [], _ => []
  | _ :: h', O => a :: h'
  | x :: h', S r' => x :: heap_set r' a h'
  end.

(** The array a reference points to; a reference the store does not hold
    cannot be written in Python, the model raises there. *)
Definition load (r : ref) : M array :=
  fun h =>
    match nth_error h r with
    | Some a => (h, Ok a)
    | None => (h, Raise IndexError)
    end.

Definition store (r : ref) (a : array) : M unit :=
  fun h => (heap_set r a h, Ok tt).

(** [np.copy(a)]: a new object with the same contents. *)
Definition np_copy (r : ref) : M ref :=
  a <- load r ;;
  fun h => (h ++ [a], Ok (length h)).

(** [a[:, c] += v] and [a[:, c] -= v], for [v] of shape (n,) like the
    column. *)
Definition iadd_col (r : ref) (c : col) (v : list Q) : M unit :=
  a <- load r ;;
  store r (setcol c (map2 Qplus (getcol c a) v) a).

Definition isub_col (r : ref) (c : col) (v : list Q) : M unit :=
  a <- load r ;;
  store r (setcol c (map2 Qminus (getcol c a) v) a).

(** [a[:, c]], read. *)
Definition read_col (r : ref) (c : col) : M (list Q) :=
  a <- load r ;;
  ret (getcol c a).

(** [a[:k]]: the first [k] rows, an array of shape (min n k, 4). *)
Definition read_rows_upto (r : ref) (k : nat) : M array :=
  a <- load r ;;
  ret (firstn k a).

(** [m - v] for [m] of shape (r, 4) and [v] of shape (n,).  numpy
    broadcasts the trailing axes 4 and n: they must be equal, or one of
    them 1.  With n = 4, [v] is subtracted from every row, column by
    column; with n = 1 its only entry is subtracted everywhere; any other
    n raises.  The result has shape (r, 4). *)
Definition sub_row (b : Box) (v : Box) : Box :=
  mkBox (b0 b - b0 v) (b1 b - b1 v) (b2 b - b2 v) (b3 b - b3 v).

Definition np_sub_2d_1d (m : array) (v : list Q) : M array :=
  match v with
  | [x] => ret (map (fun b => sub_row b (mkBox x x x x)) m)
  | [x0; x1; x2; x3] => ret (map (fun b => sub_row b (mkBox x0 x1 x2 x3)) m)
  | _ => raise ValueError
  end.

(** [a[:, c] = m] for a value [m] of shape (r, 4).  The target has shape
    (n,).  numpy drops leading axes of length 1 from the value and then
    broadcasts it to the target: the assignment goes through only for
    r = 1 and n = 4, and raises ValueError otherwise. *)
Definition assign_col_2d (r : ref) (c : col) (m : array) : M unit :=
  a <- load r ;;
  match m with
  | [row] =>
      if Nat.eqb (length a) 4
      then store r (setcol c [b0 row; b1 row; b2 row; b3 row] a)
      else raise ValueError
  | _ => raise ValueError
  end.

(** ** Coordinate conversion *)

Definition half : Q := 1 # 2.

(** [anchors_whctrs_to_minmax(anchors, in_place)] *)
Definition anchors_whctrs_to_minmax (anchors : ref) (in_place : bool)
  : M ref :=
  anchors <- (if negb in_place then np_copy anchors else ret anchors) ;;
  (* Move the centers to be the minima *)
  w <- read_col anchors C2 ;;
  isub_col anchors C0 (scale half w) ;;;
  h <- read_col anchors C3 ;;
  isub_col anchors C1 (scale half h) ;;;
  (* Add the width to the start to get the max *)
  x <- read_col anchors C0 ;;
  iadd_col anchors C2 x ;;;
  y <- read_col anchors C1 ;;
  iadd_col anchors C3 y ;;;
  ret anchors.

(** [anchors_minmax_to_whctrs(anchors, in_place)].  Lines 34 and 35 of the
    source read [anchors[:2]] and [anchors[:3]] (the first two and three
    rows) where the columns [anchors[:,2]] and [anchors[:,3]] are meant. *)
Definition anchors_minmax_to_whctrs (anchors : ref) (in_place : bool)
  : M ref :=
  anchors <- (if negb in_place then np_copy anchors else ret anchors) ;;
  (* Calculate the widths *)
  top2 <- read_rows_upto anchors 2 ;;
  x <- read_col anchors C0 ;;
  d2 <- np_sub_2d_1d top2 x ;;
  assign_col_2d anchors C2 d2 ;;;
  top3 <- read_rows_upto anchors 3 ;;
  y <- read_col anchors C1 ;;
  d3 <- np_sub_2d_1d top3 y ;;
  assign_col_2d anchors C3 d3 ;;;
  (* Move the min to the center *)
  w <- read_col anchors C2 ;;
  iadd_col anchors C0 (scale half w) ;;;
  h <- read_col anchors C3 ;;
  iadd_col anchors C1 (scale half h) ;;;
  ret anchors.

(** The conversion of one row that section 4.1 of the specification
    describes for [toCenterForm]: width and height first, then the
    centre. *)
Definition toCenterForm_spec_row (b : Box) : Box :=
  let w := b2 b - b0 b in
  let h := b3 b - b1 b in
  mkBox (b0 b + half * w) (b1 b + half * h) w h.

(** The conversion of one row that [anchors_whctrs_to_minmax] performs. *)
Definition to_minmax_row (b : Box) : Box :=
  let x := b0 b - half * b2 b in
  let y := b1 b - half * b3 b in
  mkBox x y (b2 b + x) (b3 b + y).

(** The composition of the round-trip property:
    [anchors_minmax_to_whctrs(anchors_whctrs_to_minmax(B))], both with
    [in_place = False]. *)
Definition round_trip (B : ref) : M ref :=
  m <- anchors_whctrs_to_minmax B false ;;
  anchors_minmax_to_whctrs m false.

(** The conversion section 4.1 describes for [toCenterForm], on a box
    set. *)
Definition toCenterForm_spec (a : array) : array :=
  map toCenterForm_spec_row a.

(** ** Anchor tiling *)

(** Apply [f] to the element at position [i]; the loops below only use
    positions inside the list. *)
Fixpoint upd_nth {A : Type} (i : nat) (f : A -> A) (l : list A) : list A :=
  match l, i with
  | [], _ => []
  | x :: l', O => f x :: l'
  | x :: l', S i' => x :: upd_nth i' f l'
  end.

(** [a[:, c] += d] on an array value, for a scalar [d]. *)
Definition add_col (c : col) (d : Q) (a : array) : array :=
  map (fun b => setc c (getc c b + d) b) a.

(** The loop index [i] as a number. *)
Definition of_nat (i : nat) : Q := inject_Z (Z.of_nat i).

(** [pad_anchors(input_anchors, n_tiles_x, n_tiles_y, step_size_x,
    step_size_y)].  [np.tile] with reps (n_tiles_x, n_tiles_y, 1, 1) builds
    a new array of shape (n_tiles_x, n_tiles_y, n, 4); the two loops shift
    column 0 of slab [i, :, :] and column 1 of slab [:, i, :]; the reshape
    to (n * n_tiles_x * n_tiles_y, 4) lists the rows in row-major order. *)
Definition pad_anchors (input_anchors : array) (n_tiles_x n_tiles_y : nat)
  (step_size_x step_size_y : Q) : array :=
  let _list_of_anchors :=
    repeat (repeat input_anchors n_tiles_y) n_tiles_x in
  let _list_of_anchors :=
    fold_left
      (fun l i => upd_nth i (map (add_col C0 (step_size_x * of_nat i))) l)
      (seq 0 n_tiles_x) _list_of_anchors in
  let _list_of_anchors :=
    fold_left
      (fun l i => map (upd_nth i (add_col C1 (step_size_y * of_nat i))) l)
      (seq 0 n_tiles_y) _list_of_anchors in
  concat (concat _list_of_anchors).

(** The box of tile (i, j) for the template box [b]: the two shifts the
    loops of [pad_anchors] apply to it. *)
Definition shifted (sx sy : Q) (i j : nat) (b : Box) : Box :=
  setc C1 (getc C1 (setc C0 (getc C0 b + sx * of_nat i) b) + sy * of_nat j)
    (setc C0 (getc C0 b + sx * of_nat i) b).

(** ** Anchor template generation *)

Section GenerateAnchors.

Local Open Scope R_scope.

(** An entry of a float array of [generate_anchors]: a real number, or one
    of the inf and nan that a division by zero and the square root of a
    negative number give.  Rounding to float32 and overflow are left out:
    [np.sqrt] is the real square root. *)
Inductive fnum : Type := Num (x : R) | NotNum.

(** One row of the arrays of [generate_anchors], in centre form. *)
Record Anchor : Type :=
  mkAnchor { a0 : fnum; a1 : fnum; a2 : fnum; a3 : fnum }.

(** A product with an inf or a nan is an inf or a nan. *)
Definition fmul (x y : fnum) : fnum :=
  match x, y with
  | Num a, Num b => Num (a * b)
  | _, _ => NotNum
  end.

(** [1. / x] on a numpy float: inf at zero, with a warning and no error. *)
Definition finv (x : fnum) : fnum :=
  match x with
  | Num a => if Req_dec_T a 0 then NotNum else Num (/ a)
  | NotNum => NotNum
  end.

(** [np.sqrt]: nan below zero. *)
Definition np_sqrt (r : R) : fnum :=
  if Rlt_dec r 0 then NotNum else Num (sqrt r).

(** Python's [int(x)]: truncation towards zero. *)
Definition py_int (x : R) : Z :=
  if Rle_dec 0 x then Int_part x else (- Int_part (- x))%Z.

(** The nearest integer, a tie going to the even one. *)
Definition round_half_even (x : R) : Z :=
  let f := Int_part x in
  if Rlt_dec (x - IZR f) (/ 2) then f
  else if Rlt_dec (/ 2) (x - IZR f) then (f + 1)%Z
  else if Z.even f then f else (f + 1)%Z.

(** [np.round] on one entry. *)
Definition np_round (x : fnum) : fnum :=
  match x with
  | Num a => Num (IZR (round_half_even a))
  | NotNum => NotNum
  end.

Definition round_box (b : Anchor) : Anchor :=
  mkAnchor (np_round (a0 b)) (np_round (a1 b)) (np_round (a2 b))
           (np_round (a3 b)).

Definition zero_box : Anchor := mkAnchor (Num 0) (Num 0) (Num 0) (Num 0).

Definition base_anchor (base_size : R) : Anchor :=
  mkAnchor (Num (IZR (py_int (base_size * / 2))))
           (Num (IZR (py_int (base_size * / 2))))
           (Num base_size) (Num base_size).

(** [scaled_anchors[i, 2:] *= s] on row [i]. *)
Definition scale_wh (s : R) (b : Anchor) : Anchor :=
  mkAnchor (a0 b) (a1 b) (fmul (a2 b) (Num s)) (fmul (a3 b) (Num s)).

(** The box [t] of the inner loop before it is rounded:
    [t = copy(row); t[2] *= sqrt(r); t[3] *= 1./sqrt(r)]. *)
Definition anchor_t (row : Anchor) (r : R) : Anchor :=
  mkAnchor (a0 row) (a1 row) (fmul (a2 row) (np_sqrt r))
           (fmul (a3 row) (finv (np_sqrt r))).

(** The inner loop over [zip(ratios, xrange(len(ratios)))] for scale
    index [i]. *)
Definition ratio_loop (row : Anchor) (i : nat) (ratios : list R)
  (final_anchors : list (list Anchor)) : list (list Anchor) :=
  fold_left
    (fun fa rj =>
       upd_nth i (upd_nth (snd rj)
                    (fun _ => round_box (anchor_t row (fst rj)))) fa)
    (combine ratios (seq 0 (length ratios))) final_anchors.

(** The outer loop over [zip(scales, xrange(len(scales)))]; the state is
    the pair of arrays [scaled_anchors] and [final_anchors]. *)
Definition scale_loop (ratios scales : list R)
  (st : list Anchor * list (list Anchor))
  : list Anchor * list (list Anchor) :=
  fold_left
    (fun st si =>
       let scaled_anchors := upd_nth (snd si) (scale_wh (fst si)) (fst st) in
       (scaled_anchors,
        ratio_loop (nth (snd si) scaled_anchors zero_box) (snd si) ratios
          (snd st)))
    (combine scales (seq 0 (length scales))) st.

(** [generate_anchors(base_size, ratios, scales)] *)
Definition generate_anchors (base_size : R) (ratios scales : list R)
  : list Anchor :=
  let scaled_anchors := repeat (base_anchor base_size) (length scales) in
  let final_anchors :=
    repeat (repeat zero_box (length ratios)) (length scales) in
  let st := scale_loop ratios scales (scaled_anchors, final_anchors) in
  concat (snd st).

(** The unrounded box for one scale and one ratio. *)
Definition anchor_unrounded (base_size s r : R) : Anchor :=
  anchor_t (scale_wh s (base_anchor base_size)) r.

(** An entry that is an integer, or is not a number. *)
Definition integral (x : fnum) : Prop :=
  x = NotNum \/ exists z : Z, x = Num (IZR z).

Definition integral_box (b : Anchor) : Prop :=
  integral (a0 b) /\ integral (a1 b) /\ integral (a2 b) /\ integral (a3 b).

End GenerateAnchors.

(** ** Pairwise IoU *)

(** The value of a float quotient: a number, or the infinity or NaN that a
    zero divisor produces. *)
Inductive fval : Type :=
| Fin (q : Q)
| NonFinite.

(** [x / y] on floats. *)
Definition fdiv (x y : Q) : fval :=
  if Qeq_bool y 0 then NonFinite else Fin (x / y).

(** An argument of the two numpy functions: one box (ndim 1, shape (4,))
    or a box set (ndim 2, shape (n, 4)). *)
Inductive boxes : Type :=
| OneBox (b : Box)
| BoxSet (a : array).

(** [if bb.ndim == 1: bb = np.reshape(bb, (1,) + bb.shape)] *)
Definition as_2d (bb : boxes) : array :=
  match bb with
  | OneBox b => [b]
  | BoxSet a => a
  end.

(** [np.reshape(np.tile(bb1, [1, n_2]), (n_1*n_2, 4))]: the tile puts n_2
    copies of each row side by side, the reshape cuts them into rows of
    four again, so every row of [bb1] comes n_2 times in a run. *)
Definition tile_each (bb1 : array) (n_2 : nat) : array :=
  concat (map (fun b => repeat b n_2) bb1).

(** [np.tile(bb2, [n_1, 1])]: the whole of [bb2], n_1 times over. *)
Definition tile_whole (bb2 : array) (n_1 : nat) : array :=
  concat (repeat bb2 n_1).

(** [l[mask] = v] *)
Definition mask_set {A : Type} (mask : list bool) (v : A) (l : list A)
  : list A :=
  map2 (fun (m : bool) x => if m then v else x) mask l.

(** A result array of floats: its shape and its entries in row-major
    order. *)
Record ndarray : Type := mkArr { shape : list nat; data : list fval }.

(** [np.reshape(l, shape)] of a flat array; the callers below pass a shape
    whose size is the length of [l]. *)
Definition np_reshape (l : list fval) (s : list nat) : ndarray := mkArr s l.

(** [np.squeeze]: every axis of length 1 is removed, the entries stay. *)
Definition np_squeeze (a : ndarray) : ndarray :=
  mkArr (filter (fun d => negb (Nat.eqb d 1)) (shape a)) (data a).

(** The row-major offset of an index tuple in an array of the given
    shape; [None] when the tuple has the wrong length or leaves an
    axis. *)
Fixpoint flat_index (s idx : list nat) : option nat :=
  match s, idx with
  | [], [] => Some 0%nat
  | d :: s', i :: idx' =>
      if Nat.ltb i d
      then option_map (fun o => (i * fold_right Nat.mul 1 s' + o)%nat)
             (flat_index s' idx')
      else None
  | _, _ => None
  end.

(** [a[idx]] *)
Definition get (a : ndarray) (idx : list nat) : option fval :=
  match flat_index (shape a) idx with
  | Some k => nth_error (data a) k
  | None => None
  end.

(** The index tuple that addresses the pair (i, j) of an (n_1, n_2) array
    after [np.squeeze]: the coordinate of a removed axis is dropped. *)
Definition pair_index (n_1 n_2 i j : nat) : list nat :=
  (if Nat.eqb n_1 1 then [] else [i]) ++ (if Nat.eqb n_2 1 then [] else [j]).

Definition tenth : Q := 1 # 10.

(** The local arrays of [numpy_IoU_xyctrs] when line 154 has run: [w] and
    [h] (lines 141 and 142), [inter] (144), [denom] as line 149 computes
    it, [mask] (150), the divisor [denom] as line 151 leaves it, the
    quotient of line 153 and the array [IoU] after line 154. *)
Record stages : Type := mkStages {
  st_w : list Q;
  st_h : list Q;
  st_inter : list Q;
  st_denom : list Q;
  st_mask : list bool;
  st_divisor : list Q;
  st_quotient : list fval;
  st_masked : list fval
}.

(** Lines 113 to 154 of [numpy_IoU_xyctrs]. *)
Definition xyctrs_stages (bb1 bb2 : boxes) : stages :=
  let bb1 := as_2d bb1 in
  let bb2 := as_2d bb2 in
  let n_1 := length bb1 in
  let n_2 := length bb2 in
  let bb1_arr := tile_each bb1 n_2 in
  let bb2_arr := tile_whole bb2 n_1 in
  let x1 := map2 Qmax
              (map2 Qminus (getcol C0 bb1_arr) (scale half (getcol C2 bb1_arr)))
              (map2 Qminus (getcol C0 bb2_arr) (scale half (getcol C2 bb2_arr)))
  in
  let y1 := map2 Qmax
              (map2 Qminus (getcol C1 bb1_arr) (scale half (getcol C3 bb1_arr)))
              (map2 Qminus (getcol C1 bb2_arr) (scale half (getcol C3 bb2_arr)))
  in
  let x2 := map2 Qmin
              (map2 Qplus (getcol C0 bb1_arr) (scale half (getcol C2 bb1_arr)))
              (map2 Qplus (getcol C0 bb2_arr) (scale half (getcol C2 bb2_arr)))
  in
  let y2 := map2 Qmin
              (map2 Qplus (getcol C1 bb1_arr) (scale half (getcol C3 bb1_arr)))
              (map2 Qplus (getcol C1 bb2_arr) (scale half (getcol C3 bb2_arr)))
  in
  let w := map2 Qminus x2 x1 in
  let h := map2 Qminus y2 y1 in
  let inter := map2 Qmult w h in
  let aarea := map2 Qmult (getcol C3 bb1_arr) (getcol C2 bb1_arr) in
  let barea := map2 Qmult (getcol C3 bb2_arr) (getcol C2 bb2_arr) in
  let denom := map2 Qminus (map2 Qplus aarea barea) inter in
  let mask := map (fun d => Qeq_bool d 0) denom in
  let divisor := mask_set mask tenth denom in
  let IoU := map2 fdiv inter divisor in
  mkStages w h inter denom mask divisor IoU (mask_set mask (Fin 0) IoU).

(** [numpy_IoU_xyctrs(bb1, bb2)]: lines 113 to 154, then the masks of lines
    155 and 156 and the reshape and squeeze of line 158. *)
Definition numpy_IoU_xyctrs (bb1 bb2 : boxes) : ndarray :=
  let s := xyctrs_stages bb1 bb2 in
  let n_1 := length (as_2d bb1) in
  let n_2 := length (as_2d bb2) in
  let IoU := st_masked s in
  let IoU := mask_set (map (fun x => Qle_bool x 0) (st_w s)) (Fin 0) IoU in
  let IoU := mask_set (map (fun x => Qle_bool x 0) (st_h s)) (Fin 0) IoU in
  np_squeeze (np_reshape IoU [n_1; n_2]).

(** [numpy_IoU_minmax(bb1, bb2)] *)
Definition numpy_IoU_minmax (bb1 bb2 : boxes) : ndarray :=
  let bb1 := as_2d bb1 in
  let bb2 := as_2d bb2 in
  let n_1 := length bb1 in
  let n_2 := length bb2 in
  let bb1_arr := tile_each bb1 n_2 in
  let bb2_arr := tile_whole bb2 n_1 in
  let x1 := map2 Qmax (getcol C0 bb1_arr) (getcol C0 bb2_arr) in
  let y1 := map2 Qmax (getcol C1 bb1_arr) (getcol C1 bb2_arr) in
  let x2 := map2 Qmin (getcol C2 bb1_arr) (getcol C2 bb2_arr) in
  let y2 := map2 Qmin (getcol C3 bb1_arr) (getcol C3 bb2_arr) in
  let w := map2 Qminus x2 x1 in
  let h := map2 Qminus y2 y1 in
  let inter := map2 Qmult w h in
  let aarea := map2 Qmult
                 (map2 Qminus (getcol C3 bb1_arr) (getcol C1 bb1_arr))
                 (map2 Qminus (getcol C2 bb1_arr) (getcol C0 bb1_arr)) in
  let barea := map2 Qmult
                 (map2 Qminus (getcol C3 bb2_arr) (getcol C1 bb2_arr))
                 (map2 Qminus (getcol C2 bb2_arr) (getcol C0 bb2_arr)) in
  let denom := map2 Qminus (map2 Qplus aarea barea) inter in
  let mask := map (fun d => Qeq_bool d 0) denom in
  let denom := mask_set mask tenth denom in
  let IoU := map2 fdiv inter denom in
  let IoU := mask_set mask (Fin 0) IoU in
  let IoU := mask_set (map (fun x => Qle_bool x 0) w) (Fin 0) IoU in
  let IoU := mask_set (map (fun x => Qle_bool x 0) h) (Fin 0) IoU in
  np_squeeze (np_reshape IoU [n_1; n_2]).

(** [tf.nn.relu] *)
Definition relu (x : Q) : Q := Qmax x 0.

(** [v + 1] for a scalar 1. *)
Definition plus1 (v : list Q) : list Q := map (fun x => x + 1) v.

(** The global names the functions of the module look up. *)
Inductive global_name : Type := name_np | name_tf.

(** The module's only import is [import numpy as np] (line 1): [np] is
    bound, nothing binds [tf]. *)
Definition module_binds (n : global_name) : bool :=
  match n with
  | name_np => true
  | name_tf => false
  end.

(** The lookup of a global name: NameError when the module does not bind
    it. *)
Definition lookup_global (n : global_name) : result unit :=
  if module_binds n then Ok tt else Raise NameError.

(** Lines 243 to 276 of [compute_IoU] on two tensors of static shapes
    (n_1, 4) and (n_2, 4), as they would run with [tf] bound to the
    tensorflow module. *)
Definition compute_IoU_body (bb1_arr bb2_arr : array) : ndarray :=
  let n_1 := length bb1_arr in
  let n_2 := length bb2_arr in
  let bb1_arr := tile_each bb1_arr n_2 in
  let bb2_arr := tile_whole bb2_arr n_1 in
  let x1 := map2 Qmax
              (map2 Qminus (getcol C0 bb1_arr) (scale half (getcol C2 bb1_arr)))
              (map2 Qminus (getcol C0 bb2_arr) (scale half (getcol C2 bb2_arr)))
  in
  let y1 := map2 Qmax
              (map2 Qminus (getcol C1 bb1_arr) (scale half (getcol C3 bb1_arr)))
              (map2 Qminus (getcol C1 bb2_arr) (scale half (getcol C3 bb2_arr)))
  in
  let x2 := map2 Qmin
              (map2 Qplus (getcol C0 bb1_arr) (scale half (getcol C2 bb1_arr)))
              (map2 Qplus (getcol C0 bb2_arr) (scale half (getcol C2 bb2_arr)))
  in
  let y2 := map2 Qmin
              (map2 Qplus (getcol C1 bb1_arr) (scale half (getcol C3 bb1_arr)))
              (map2 Qplus (getcol C1 bb2_arr) (scale half (getcol C3 bb2_arr)))
  in
  let w := plus1 (map2 Qminus x2 x1) in
  let h := plus1 (map2 Qminus y2 y1) in
  let w := map relu w in
  let h := map relu h in
  let inter := map2 Qmult w h in
  let aarea := map2 Qmult (plus1 (getcol C3 bb1_arr))
                 (plus1 (getcol C2 bb1_arr)) in
  let barea := map2 Qmult (plus1 (getcol C3 bb2_arr))
                 (plus1 (getcol C2 bb2_arr)) in
  let IoU := map2 fdiv inter (map2 Qminus (map2 Qplus aarea barea) inter) in
  np_reshape IoU [n_1; n_2].

(** [compute_IoU(bb1_arr, bb2_arr)].  Lines 243 and 244 call methods of the
    arguments; line 246 is the first to name [tf], and the lookup of that
    name is where every call ends. *)
Definition compute_IoU (bb1_arr bb2_arr : array) : result ndarray :=
  match lookup_global name_tf with
  | Ok _ => Ok (compute_IoU_body bb1_arr bb2_arr)
  | Raise e => Raise e
  end.

(** *** The quantities of one pair of boxes *)

(** Centre form: the bounds of the intersection, its extents, the two
    areas and the denominator, as lines 128 to 149 compute them for one
    row of the tiled arrays. *)
Definition x1_xyctrs (a b : Box) : Q :=
  Qmax (b0 a - half * b2 a) (b0 b - half * b2 b).
Definition y1_xyctrs (a b : Box) : Q :=
  Qmax (b1 a - half * b3 a) (b1 b - half * b3 b).
Definition x2_xyctrs (a b : Box) : Q :=
  Qmin (b0 a + half * b2 a) (b0 b + half * b2 b).
Definition y2_xyctrs (a b : Box) : Q :=
  Qmin (b1 a + half * b3 a) (b1 b + half * b3 b).
Definition w_xyctrs (a b : Box) : Q := x2_xyctrs a b - x1_xyctrs a b.
Definition h_xyctrs (a b : Box) : Q := y2_xyctrs a b - y1_xyctrs a b.
Definition area_xyctrs (a : Box) : Q := b3 a * b2 a.
Definition denom_xyctrs (a b : Box) : Q :=
  area_xyctrs a + area_xyctrs b - w_xyctrs a b * h_xyctrs a b.

(** Corner form, lines 194 to 215. *)
Definition w_minmax (a b : Box) : Q := Qmin (b2 a) (b2 b) - Qmax (b0 a) (b0 b).
Definition h_minmax (a b : Box) : Q := Qmin (b3 a) (b3 b) - Qmax (b1 a) (b1 b).
Definition area_minmax (a : Box) : Q := (b3 a - b1 a) * (b2 a - b0 a).
Definition denom_minmax (a b : Box) : Q :=
  area_minmax a + area_minmax b - w_minmax a b * h_minmax a b.

(** The masked quotient of lines 150 to 156 (and 216 to 222) for one
    entry. *)
Definition masked_iou (w h denom : Q) : fval :=
  let mask := Qeq_bool denom 0 in
  let denom' := if mask then tenth else denom in
  let IoU := fdiv (w * h) denom' in
  let IoU := if mask then Fin 0 else IoU in
  let IoU := if Qle_bool w 0 then Fin 0 else IoU in
  if Qle_bool h 0 then Fin 0 else IoU.

Definition iou_xyctrs (a b : Box) : fval :=
  masked_iou (w_xyctrs a b) (h_xyctrs a b) (denom_xyctrs a b).

Definition iou_minmax (a b : Box) : fval :=
  masked_iou (w_minmax a b) (h_minmax a b) (denom_minmax a b).

(** The graph form, lines 252 to 274, for one entry. *)
Definition w_batched (a b : Box) : Q := relu (w_xyctrs a b + 1).
Definition h_batched (a b : Box) : Q := relu (h_xyctrs a b + 1).
Definition area_batched (a : Box) : Q := (b3 a + 1) * (b2 a + 1).
Definition iou_batched (a b : Box) : fval :=
  let inter := w_batched a b * h_batched a b in
  fdiv inter (area_batched a + area_batched b - inter).

(** Entries compared as numbers. *)
Definition fval_eq (x y : fval) : Prop :=
  match x, y with
  | Fin p, Fin q => p == q
  | NonFinite, NonFinite => True
  | _, _ => False
  end.

(** An entry that is a number of the interval [0, 1]. *)
Definition in_unit (x : fval) : Prop :=
  match x with
  | Fin q => 0 <= q /\ q <= 1
  | NonFinite => False
  end.



(** ** The host-numeric IoU in binary64 *)

Section Binary64.

Import PrimFloat.
Local Open Scope float_scope.

(** One box of a float64 array. *)
Record FBox : Type := mkFBox { f0 : float; f1 : float; f2 : float; f3 : float }.

(** [np.max((x, y), axis=0)] and [np.min((x, y), axis=0)] at one position;
    a NaN goes through. *)
Definition f64_max (x y : float) : float :=
  if is_nan x then x else if is_nan y then y else if x <? y then y else x.

Definition f64_min (x y : float) : float :=
  if is_nan x then x else if is_nan y then y else if y <? x then y else x.

(** Lines 150 to 156 on one entry, in binary64. *)
#[warnings="-inexact-float"]
Definition masked_iou_f64 (w h inter denom : float) : float :=
  let mask := denom =? 0 in
  let denom := if mask then 0.1 else denom in
  let IoU := inter / denom in
  let IoU := if mask then 0 else IoU in
  let IoU := if w <=? 0 then 0 else IoU in
  if h <=? 0 then 0 else IoU.

(** [numpy_IoU_xyctrs(bb1, bb2)] for two single boxes of dtype float64:
    every array of lines 124 to 156 has one entry, and [np.squeeze] returns
    it as a scalar. *)
Definition numpy_IoU_xyctrs_f64 (bb1 bb2 : FBox) : float :=
  let x1 := f64_max (f0 bb1 - 0.5 * f2 bb1) (f0 bb2 - 0.5 * f2 bb2) in
  let y1 := f64_max (f1 bb1 - 0.5 * f3 bb1) (f1 bb2 - 0.5 * f3 bb2) in
  let x2 := f64_min (f0 bb1 + 0.5 * f2 bb1) (f0 bb2 + 0.5 * f2 bb2) in
  let y2 := f64_min (f1 bb1 + 0.5 * f3 bb1) (f1 bb2 + 0.5 * f3 bb2) in
  let w := x2 - x1 in
  let h := y2 - y1 in
  let inter := w * h in
  let aarea := f3 bb1 * f2 bb1 in
  let barea := f3 bb2 * f2 bb2 in
  let denom := aarea + barea - inter in
  masked_iou_f64 w h inter denom.

(** [numpy_IoU_minmax(bb1, bb2)] for two single boxes of dtype float64. *)
Definition numpy_IoU_minmax_f64 (bb1 bb2 : FBox) : float :=
  let x1 := f64_max (f0 bb1) (f0 bb2) in
  let y1 := f64_max (f1 bb1) (f1 bb2) in
  let x2 := f64_min (f2 bb1) (f2 bb2) in
  let y2 := f64_min (f3 bb1) (f3 bb2) in
  let w := x2 - x1 in
  let h := y2 - y1 in
  let inter := w * h in
  let aarea := (f3 bb1 - f1 bb1) * (f2 bb1 - f0 bb1) in
  let barea := (f3 bb2 - f1 bb2) * (f2 bb2 - f0 bb2) in
  let denom := aarea + barea - inter in
  masked_iou_f64 w h inter denom.

(** The inputs of the statements about binary64. *)
#[warnings="-inexact-float"]
Definition tenth_box : FBox := mkFBox 0.1 0.1 0.1 0.1.

#[warnings="-inexact-float"]
Definition huge_box : FBox := mkFBox 0 0 1e200 1e200.

(** 1 + 2^-51, printed 1.0000000000000004. *)
Definition above_one : float := 0x1.0000000000002p+0.

End Binary64.

(** ** Notions the further properties are stated with *)


(** A centre-form box with non-negative width and height. *)
Definition well_formed (b : Box) : Prop := 0 <= b2 b /\ 0 <= b3 b.

(** * Properties *)

Unset Implicit Arguments.

(** ** Lists *)

Lemma map2_length {A B C : Type} (f : A -> B -> C) (l : list A) (m : list B) :
  length l = length m -> length (map2 f l m) = length l.
Proof.
  revert m; induction l as [|x l IH]; intros [|y m] H; simpl in *;
    try discriminate; auto.
Qed.

Lemma map2_map_same {A B C D : Type} (f : B -> C -> D) (g : A -> B)
  (k : A -> C) (l : list A) :
  map2 f (map g l) (map k l) = map (fun x => f (g x) (k x)) l.
Proof.
  induction l as [|x l IH]; simpl; [reflexivity | now rewrite IH].
Qed.

Lemma map2_self_map {A B C : Type} (f : A -> B -> C) (k : A -> B)
  (l : list A) :
  map2 f l (map k l) = map (fun x => f x (k x)) l.
Proof.
  induction l as [|x l IH]; simpl; [reflexivity | now rewrite IH].
Qed.

Lemma setcol_map (c : col) (k : Box -> Q) (a : array) :
  setcol c (map k a) a = map (fun b => setc c (k b) b) a.
Proof. unfold setcol. apply map2_self_map. Qed.

Lemma nth_error_snoc {A : Type} (l : list A) (x : A) :
  nth_error (l ++ [x]) (length l) = Some x.
Proof.
  rewrite nth_error_app2 by lia. now rewrite Nat.sub_diag.
Qed.

Lemma heap_set_snoc (h : heap) (x y : array) :
  heap_set (length h) y (h ++ [x]) = h ++ [y].
Proof.
  induction h as [|z h IH]; simpl; [reflexivity | now rewrite IH].
Qed.

Lemma nth_error_heap_set_same (h : heap) (r : ref) (x y : array) :
  nth_error h r = Some x -> nth_error (heap_set r y h) r = Some y.
Proof.
  revert r; induction h as [|z h IH]; intros [|r] H; simpl in *;
    try discriminate; auto.
Qed.

Lemma nth_error_heap_set_other (h : heap) (r r' : ref) (y : array) :
  r <> r' -> nth_error (heap_set r y h) r' = nth_error h r'.
Proof.
  revert r r'; induction h as [|z h IH]; intros [|r] [|r'] H; simpl;
    try reflexivity; try (exfalso; apply H; reflexivity).
  apply IH. intros E; apply H; now rewrite E.
Qed.

Lemma heap_set_twice (h : heap) (r : ref) (x y : array) :
  heap_set r y (heap_set r x h) = heap_set r y h.
Proof.
  revert r; induction h as [|z h IH]; intros [|r]; simpl; try reflexivity.
  now rewrite IH.
Qed.

(** ** The store monad *)

Lemma load_ok (h : heap) (r : ref) (a : array) :
  nth_error h r = Some a -> load r h = (h, Ok a).
Proof. intros H. unfold load. now rewrite H. Qed.

Lemma bind_load {B : Type} (h : heap) (r : ref) (a : array)
  (k : array -> M B) :
  nth_error h r = Some a -> bind (load r) k h = k a h.
Proof. intros H. unfold bind. now rewrite (load_ok h r a H). Qed.

Lemma read_col_ok {B : Type} (h : heap) (r : ref) (a : array) (c : col)
  (k : list Q -> M B) :
  nth_error h r = Some a -> bind (read_col r c) k h = k (getcol c a) h.
Proof.
  intros H. unfold read_col, bind at 1. now rewrite (bind_load h r a _ H).
Qed.

Lemma isub_col_ok {B : Type} (h : heap) (r : ref) (a : array) (c : col)
  (v : list Q) (k : unit -> M B) :
  nth_error h r = Some a ->
  bind (isub_col r c v) k h
  = k tt (heap_set r (setcol c (map2 Qminus (getcol c a) v) a) h).
Proof.
  intros H. unfold isub_col, bind at 1. now rewrite (bind_load h r a _ H).
Qed.

Lemma iadd_col_ok {B : Type} (h : heap) (r : ref) (a : array) (c : col)
  (v : list Q) (k : unit -> M B) :
  nth_error h r = Some a ->
  bind (iadd_col r c v) k h
  = k tt (heap_set r (setcol c (map2 Qplus (getcol c a) v) a) h).
Proof.
  intros H. unfold iadd_col, bind at 1. now rewrite (bind_load h r a _ H).
Qed.

(** ** Coordinate conversion *)

(** The four column updates of [anchors_whctrs_to_minmax], row by row. *)
Lemma to_minmax_columns (a : array) :
  let a1 := setcol C0 (map2 Qminus (getcol C0 a) (scale half (getcol C2 a))) a in
  let a2 := setcol C1 (map2 Qminus (getcol C1 a1) (scale half (getcol C3 a1))) a1 in
  let a3 := setcol C2 (map2 Qplus (getcol C2 a2) (getcol C0 a2)) a2 in
  setcol C3 (map2 Qplus (getcol C3 a3) (getcol C1 a3)) a3
  = map to_minmax_row a.
Proof.
  unfold getcol, scale. cbv zeta.
  rewrite map_map, map2_map_same, setcol_map.
  rewrite !map_map, map2_map_same, setcol_map, !map_map.
  rewrite map2_map_same, setcol_map, !map_map.
  rewrite map2_map_same, setcol_map, !map_map.
  apply map_ext. intros [x y w h]. reflexivity.
Qed.

(** The steps of [anchors_whctrs_to_minmax] after the copy, on the object
    at [r]. *)
Lemma whctrs_to_minmax_at (h : heap) (r : ref) (a : array) :
  nth_error h r = Some a ->
  anchors_whctrs_to_minmax r true h
  = (heap_set r (map to_minmax_row a) h, Ok r).
Proof.
  intros H. unfold anchors_whctrs_to_minmax. simpl negb. cbv iota.
  unfold bind at 1, ret at 1.
  rewrite (read_col_ok h r a _ _ H), (isub_col_ok h r a _ _ _ H).
  match goal with |- context [heap_set r ?x h] =>
    pose proof (nth_error_heap_set_same h r a x H) as H1 end.
  rewrite (read_col_ok _ r _ _ _ H1), (isub_col_ok _ r _ _ _ _ H1),
    heap_set_twice.
  match goal with |- context [heap_set r ?x h] =>
    pose proof (nth_error_heap_set_same h r a x H) as H2 end.
  rewrite (read_col_ok _ r _ _ _ H2), (iadd_col_ok _ r _ _ _ _ H2),
    heap_set_twice.
  match goal with |- context [heap_set r ?x h] =>
    pose proof (nth_error_heap_set_same h r a x H) as H3 end.
  rewrite (read_col_ok _ r _ _ _ H3), (iadd_col_ok _ r _ _ _ _ H3),
    heap_set_twice.
  unfold ret. f_equal. f_equal. apply to_minmax_columns.
Qed.

(** With [in_place = False] the function works on a new object: the store
    grows by the converted copy and every object it held stays as it
    was. *)
Lemma whctrs_to_minmax_copy (h : heap) (r : ref) (a : array) :
  nth_error h r = Some a ->
  anchors_whctrs_to_minmax r false h
  = (h ++ [map to_minmax_row a], Ok (length h)).
Proof.
  intros H.
  assert (E : anchors_whctrs_to_minmax r false h
              = anchors_whctrs_to_minmax (length h) true (h ++ [a])).
  { unfold anchors_whctrs_to_minmax. simpl negb. cbv iota.
    unfold bind at 1. unfold np_copy. rewrite (bind_load h r a _ H).
    reflexivity. }
  rewrite E, (whctrs_to_minmax_at _ _ _ (nth_error_snoc h a)).
  now rewrite heap_set_snoc.
Qed.

(** The first assignment of [anchors_minmax_to_whctrs] raises on the
    object at [r], whatever its number of rows, and nothing has been
    written by then. *)
Lemma minmax_to_whctrs_at (h : heap) (r : ref) (a : array) :
  nth_error h r = Some a ->
  anchors_minmax_to_whctrs r true h = (h, Raise ValueError).
Proof.
  intros H. unfold anchors_minmax_to_whctrs. simpl negb. cbv iota.
  unfold bind at 1, ret at 1.
  unfold read_rows_upto. unfold bind at 1. rewrite (bind_load h r a _ H).
  unfold ret at 1. rewrite (read_col_ok h r a _ _ H).
  destruct a as [|r0 [|r1 [|r2 [|r3 [|r4 a]]]]]; simpl;
    cbv [bind np_sub_2d_1d ret raise assign_col_2d load];
    rewrite ?H; reflexivity.
Qed.

Lemma minmax_to_whctrs_copy (h : heap) (r : ref) (a : array) :
  nth_error h r = Some a ->
  anchors_minmax_to_whctrs r false h = (h ++ [a], Raise ValueError).
Proof.
  intros H.
  assert (E : anchors_minmax_to_whctrs r false h
              = anchors_minmax_to_whctrs (length h) true (h ++ [a])).
  { unfold anchors_minmax_to_whctrs. simpl negb. cbv iota.
    unfold bind at 1. unfold np_copy. rewrite (bind_load h r a _ H).
    reflexivity. }
  rewrite E. apply minmax_to_whctrs_at with (a := a). apply nth_error_snoc.
Qed.

(** Whatever the flag, the objects the store held before a call with
    [in_place = False] are untouched by it. *)
Lemma to_minmax_frame (h : heap) (r r' : ref) (a : array) :
  nth_error h r = Some a -> (r' < length h)%nat ->
  nth_error (fst (anchors_whctrs_to_minmax r false h)) r' = nth_error h r'.
Proof.
  intros H L. rewrite (whctrs_to_minmax_copy h r a H). simpl.
  now rewrite nth_error_app1.
Qed.

Lemma to_whctrs_frame (h : heap) (r r' : ref) (a : array) :
  nth_error h r = Some a -> (r' < length h)%nat ->
  nth_error (fst (anchors_minmax_to_whctrs r false h)) r' = nth_error h r'.
Proof.
  intros H L. rewrite (minmax_to_whctrs_copy h r a H). simpl.
  now rewrite nth_error_app1.
Qed.

(** On rows, the conversion the specification describes undoes
    [anchors_whctrs_to_minmax]. *)
Lemma spec_row_round_trip (b : Box) :
  Box_eq (toCenterForm_spec_row (to_minmax_row b)) b.
Proof.
  destruct b as [x y w h]. unfold Box_eq, toCenterForm_spec_row,
    to_minmax_row, half; simpl. repeat split; ring.
Qed.

(** C2, code_bug.  [anchors_minmax_to_whctrs] returns no box set: for every
    box set in the store and either value of [in_place] the call raises
    ValueError at line 34, where the claim has it return widths, heights
    and centres. *)
Theorem C2_minmax_to_whctrs_raises (h : heap) (r : ref) (a : array)
  (in_place : bool) :
  nth_error h r = Some a ->
  snd (anchors_minmax_to_whctrs r in_place h) = Raise ValueError.
Proof.
  intros H. destruct in_place.
  - now rewrite (minmax_to_whctrs_at h r a H).
  - now rewrite (minmax_to_whctrs_copy h r a H).
Qed.

Lemma C2_minmax_to_whctrs_raises_witness :
  nth_error [[mkBox 0 0 10 10]] 0 = Some [mkBox 0 0 10 10]
  /\ snd (anchors_minmax_to_whctrs 0%nat false [[mkBox 0 0 10 10]])
     = Raise ValueError.
Proof.
  split; [reflexivity|].
  apply (C2_minmax_to_whctrs_raises [[mkBox 0 0 10 10]] 0%nat
           [mkBox 0 0 10 10] false).
  reflexivity.
Defined.

(** C1, code_bug.  The round trip returns no box set: the first
    conversion succeeds and the second raises ValueError, for every box
    set in the store, where the claim has it return a set equal to the
    input. *)
Theorem C1_round_trip_raises (h : heap) (r : ref) (B : array) :
  nth_error h r = Some B ->
  round_trip r h
  = (h ++ [map to_minmax_row B] ++ [map to_minmax_row B], Raise ValueError).
Proof.
  intros H. unfold round_trip, bind.
  rewrite (whctrs_to_minmax_copy h r B H).
  rewrite (minmax_to_whctrs_copy (h ++ [map to_minmax_row B]) (length h)
             (map to_minmax_row B) (nth_error_snoc h _)).
  now rewrite <- app_assoc.
Qed.

Lemma C1_round_trip_raises_witness :
  nth_error [[mkBox 5 5 10 10]] 0 = Some [mkBox 5 5 10 10]
  /\ snd (round_trip 0%nat [[mkBox 5 5 10 10]]) = Raise ValueError.
Proof.
  split; [reflexivity|].
  rewrite (C1_round_trip_raises [[mkBox 5 5 10 10]] 0%nat [mkBox 5 5 10 10]
             eq_refl).
  reflexivity.
Defined.

(** C10, code_bug.  With [in_place = False] on the store that holds the
    one box set [[0, 0, 10, 10]]: [anchors_whctrs_to_minmax] returns a new
    object and leaves the input as it was, and so does
    [anchors_minmax_to_whctrs] leave it, but that call raises ValueError
    and returns no converted set. *)
Theorem C10_copy_contract_at_unit_box :
  let B := [mkBox 0 0 10 10] in
  (exists m out,
      anchors_whctrs_to_minmax 0%nat false [B] = ([B; out], Ok m)
      /\ m <> 0%nat)
  /\ anchors_minmax_to_whctrs 0%nat false [B] = ([B; B], Raise ValueError).
Proof.
  split.
  - eexists _, _. split; [reflexivity | discriminate].
  - reflexivity.
Qed.

(** ** Anchor tiling *)

Lemma upd_nth_app {A : Type} (f : A -> A) (pre : list A) (x : A)
  (post : list A) :
  upd_nth (length pre) f (pre ++ x :: post) = pre ++ f x :: post.
Proof.
  induction pre as [|y pre IH]; simpl; [reflexivity | now rewrite IH].
Qed.

(** A loop that updates position [i] on its [i]-th turn, run over a
    constant array. *)
Lemma fold_upd_repeat {A : Type} (F : nat -> A -> A) (x : A) (n : nat) :
  forall pre : list A,
    fold_left (fun l i => upd_nth i (F i) l) (seq (length pre) n)
      (pre ++ repeat x n)
    = pre ++ map (fun i => F i x) (seq (length pre) n).
Proof.
  induction n as [|n IH]; intros pre; simpl; [reflexivity|].
  rewrite upd_nth_app.
  replace (pre ++ F (length pre) x :: repeat x n)
    with ((pre ++ [F (length pre) x]) ++ repeat x n)
    by now rewrite <- app_assoc.
  replace (S (length pre)) with (length (pre ++ [F (length pre) x]))
    by (rewrite length_app; simpl; lia).
  rewrite IH. now rewrite <- app_assoc.
Qed.

Lemma fold_upd_repeat0 {A : Type} (F : nat -> A -> A) (x : A) (n : nat) :
  fold_left (fun l i => upd_nth i (F i) l) (seq 0 n) (repeat x n)
  = map (fun i => F i x) (seq 0 n).
Proof. apply (fold_upd_repeat F x n []). Qed.

(** A loop whose body works on every row is a loop on each row. *)
Lemma fold_map_rows {A : Type} (G : nat -> A -> A) (js : list nat) :
  forall l : list A,
    fold_left (fun l j => map (G j) l) js l
    = map (fun row => fold_left (fun r j => G j r) js row) l.
Proof.
  induction js as [|j js IH]; intros l; simpl.
  - now rewrite map_id.
  - rewrite IH, map_map. reflexivity.
Qed.

Lemma concat_concat {A : Type} (l : list (list (list A))) :
  concat (concat l) = concat (map (@concat A) l).
Proof.
  induction l as [|x l IH]; simpl; [reflexivity|].
  now rewrite concat_app, IH.
Qed.

(** [pad_anchors] in closed form: the tiles in row-major order, the
    template inside each. *)
Lemma pad_anchors_closed (T : array) (nx ny : nat) (sx sy : Q) :
  pad_anchors T nx ny sx sy
  = concat (map (fun i =>
              concat (map (fun j => map (shifted sx sy i j) T) (seq 0 ny)))
              (seq 0 nx)).
Proof.
  unfold pad_anchors.
  rewrite (fold_upd_repeat0
             (fun i => map (add_col C0 (sx * of_nat i))) (repeat T ny) nx).
  rewrite (fold_map_rows (fun j => upd_nth j (add_col C1 (sy * of_nat j)))).
  rewrite map_map. unfold array. rewrite (@concat_concat Box), map_map. f_equal.
  apply map_ext. intros i.
  rewrite map_repeat.
  rewrite (fold_upd_repeat0 (fun j => add_col C1 (sy * of_nat j))).
  f_equal. apply map_ext. intros j.
  unfold add_col. rewrite map_map. reflexivity.
Qed.

Lemma length_concat_uniform {A : Type} (m : nat) (ll : list (list A)) :
  Forall (fun l => length l = m) ll ->
  length (concat ll) = (length ll * m)%nat.
Proof.
  induction 1 as [|l ll Hl _ IH]; simpl; [reflexivity|].
  rewrite length_app, IH, Hl. reflexivity.
Qed.

Lemma nth_error_concat_uniform {A : Type} (m : nat) (ll : list (list A)) :
  Forall (fun l => length l = m) ll ->
  forall (i j : nat) (l : list A),
    nth_error ll i = Some l -> (j < m)%nat ->
    nth_error (concat ll) (i * m + j) = nth_error l j.
Proof.
  induction 1 as [|l0 ll Hl _ IH]; intros [|i] j l Hi Hj; simpl in *;
    try discriminate.
  - injection Hi as <-. rewrite nth_error_app1 by lia. reflexivity.
  - rewrite nth_error_app2 by lia.
    replace (m + i * m + j - length l0)%nat with (i * m + j)%nat by lia.
    now apply IH.
Qed.

Lemma nth_error_map_seq {A : Type} (f : nat -> A) (n i : nat) :
  (i < n)%nat -> nth_error (map f (seq 0 n)) i = Some (f i).
Proof.
  intros H. rewrite nth_error_map, nth_error_seq.
  destruct (Nat.ltb_spec i n); [reflexivity | lia].
Qed.

Lemma tile_block_lengths (T : array) (ny : nat) (sx sy : Q) (nx : nat) :
  Forall (fun l : array => length l = (ny * length T)%nat)
    (map (fun i =>
            concat (map (fun j => map (shifted sx sy i j) T) (seq 0 ny)))
       (seq 0 nx)).
Proof.
  apply Forall_forall. intros l Hl. apply in_map_iff in Hl.
  destruct Hl as [i [<- _]].
  rewrite (length_concat_uniform (length T)).
  - now rewrite length_map, length_seq.
  - apply Forall_forall. intros l Hl. apply in_map_iff in Hl.
    destruct Hl as [j [<- _]]. apply length_map.
Qed.

(** C6.  [pad_anchors] returns len(T) * tilesX * tilesY boxes; the box at
    flat index (i * tilesY + j) * len(T) + k (tile-x slowest, then tile-y,
    the anchor fastest) is T[k] with x_center moved by i * strideX and
    y_center by j * strideY, for strides of either sign; in tile (0, 0) it
    is T[k] itself. *)
Theorem C6_pad_anchors_layout (T : array) (nx ny : nat) (sx sy : Q) :
  length (pad_anchors T nx ny sx sy) = (length T * nx * ny)%nat
  /\ forall (i j k : nat) (b : Box),
      (i < nx)%nat -> (j < ny)%nat -> nth_error T k = Some b ->
      exists b' : Box,
        nth_error (pad_anchors T nx ny sx sy) ((i * ny + j) * length T + k)
        = Some b'
        /\ b0 b' == b0 b + of_nat i * sx
        /\ b1 b' == b1 b + of_nat j * sy
        /\ b2 b' = b2 b
        /\ b3 b' = b3 b
        /\ (i = 0%nat -> j = 0%nat -> Box_eq b' b).
Proof.
  rewrite pad_anchors_closed. split.
  - rewrite (length_concat_uniform (ny * length T))
      by apply tile_block_lengths.
    rewrite length_map, length_seq. lia.
  - intros i j k b Hi Hj Hk.
    assert (Kk : (k < length T)%nat).
    { apply nth_error_Some. rewrite Hk. discriminate. }
    exists (shifted sx sy i j b). split.
    + replace ((i * ny + j) * length T + k)%nat
        with (i * (ny * length T) + (j * length T + k))%nat by lia.
      rewrite (nth_error_concat_uniform (ny * length T) _
                 (tile_block_lengths T ny sx sy nx) i (j * length T + k)
                 _ (nth_error_map_seq _ nx i Hi)) by nia.
      assert (F : Forall (fun l : array => length l = length T)
                    (map (fun j0 => map (shifted sx sy i j0) T) (seq 0 ny))).
      { apply Forall_forall. intros l Hl. apply in_map_iff in Hl.
        destruct Hl as [j0 [<- _]]. apply length_map. }
      rewrite (nth_error_concat_uniform (length T) _ F j k _
                 (nth_error_map_seq _ ny j Hj) Kk).
      rewrite nth_error_map, Hk. reflexivity.
    + destruct b as [x y w h]. unfold shifted; simpl.
      split; [ring|]. split; [ring|]. split; [reflexivity|].
      split; [reflexivity|].
      intros -> ->. unfold Box_eq, of_nat; simpl. repeat split; ring.
Qed.

Lemma C6_pad_anchors_layout_witness :
  let T := [mkBox 1 2 3 4; mkBox 5 6 7 8] in
  exists b' : Box,
    nth_error (pad_anchors T 2 2 16 (-16)) ((1 * 2 + 1) * length T + 1)
    = Some b'
    /\ b0 b' == 5 + of_nat 1 * 16
    /\ b1 b' == 6 + of_nat 1 * (-16)
    /\ b2 b' = 7
    /\ b3 b' = 8
    /\ (1%nat = 0%nat -> 1%nat = 0%nat -> Box_eq b' (mkBox 5 6 7 8)).
Proof.
  intros T.
  apply (proj2 (C6_pad_anchors_layout T 2 2 16 (-16)) 1%nat 1%nat 1%nat
           (mkBox 5 6 7 8)).
  - lia.
  - lia.
  - reflexivity.
Defined.

(** ** Anchor template generation *)

Lemma fold_upd_row {A X : Type} (G : X -> list A -> list A) (xs : list X)
  (pre post : list (list A)) :
  forall row : list A,
    fold_left (fun fa x => upd_nth (length pre) (G x) fa) xs
      (pre ++ row :: post)
    = pre ++ fold_left (fun r x => G x r) xs row :: post.
Proof.
  induction xs as [|x xs IH]; intros row; simpl; [reflexivity|].
  now rewrite upd_nth_app, IH.
Qed.

(** A loop over [zip(xs, xrange(len(xs)))] that stores a value at each
    index fills the array with the values. *)
Lemma fold_set_zip {A X : Type} (V : X -> A) (z : A) (xs : list X) :
  forall pre : list A,
    fold_left (fun r (xj : X * nat) => upd_nth (snd xj) (fun _ => V (fst xj)) r)
      (combine xs (seq (length pre) (length xs)))
      (pre ++ repeat z (length xs))
    = pre ++ map V xs.
Proof.
  induction xs as [|x xs IH]; intros pre; simpl; [reflexivity|].
  rewrite upd_nth_app.
  replace (pre ++ V x :: repeat z (length xs))
    with ((pre ++ [V x]) ++ repeat z (length xs))
    by now rewrite <- app_assoc.
  replace (S (length pre)) with (length (pre ++ [V x]))
    by (rewrite length_app; simpl; lia).
  rewrite IH. now rewrite <- app_assoc.
Qed.

Lemma fold_set_zip0 {A X : Type} (V : X -> A) (z : A) (xs : list X) :
  fold_left (fun r (xj : X * nat) => upd_nth (snd xj) (fun _ => V (fst xj)) r)
    (combine xs (seq 0 (length xs))) (repeat z (length xs))
  = map V xs.
Proof. apply (fold_set_zip V z xs []). Qed.

Lemma nth_middle_default {A : Type} (pre post : list A) (x d : A) :
  nth (length pre) (pre ++ x :: post) d = x.
Proof. induction pre as [|y pre IH]; simpl; auto. Qed.

Section GenerateAnchorsFacts.

Local Open Scope R_scope.

(** The state of the outer loop after it has run over [scales], started in
    the middle of the arrays. *)
Lemma scale_loop_closed (base : Anchor) (ratios : list R) (scales : list R) :
  forall (preS : list Anchor) (preF : list (list Anchor)),
    length preS = length preF ->
    snd (fold_left
           (fun st si =>
              let scaled_anchors :=
                upd_nth (snd si) (scale_wh (fst si)) (fst st) in
              (scaled_anchors,
               ratio_loop (nth (snd si) scaled_anchors zero_box)
                 (snd si) ratios (snd st)))
           (combine scales (seq (length preS) (length scales)))
           (preS ++ repeat base (length scales),
            preF ++ repeat (repeat zero_box (length ratios)) (length scales)))
    = preF ++ map (fun s =>
                     map (fun r => round_box (anchor_t (scale_wh s base) r))
                       ratios) scales.
Proof.
  induction scales as [|s scales IH]; intros preS preF L; simpl;
    [reflexivity|].
  rewrite upd_nth_app, nth_middle_default.
  unfold ratio_loop at 2. rewrite L.
  rewrite (fold_upd_row
             (fun (rj : R * nat) =>
                upd_nth (snd rj)
                  (fun _ => round_box (anchor_t (scale_wh s base) (fst rj))))).
  rewrite (fold_set_zip0
             (fun r => round_box (anchor_t (scale_wh s base) r))
             zero_box ratios).
  replace (preS ++ scale_wh s base :: repeat base (length scales))
    with ((preS ++ [scale_wh s base]) ++ repeat base (length scales))
    by now rewrite <- app_assoc.
  match goal with |- context [preF ++ ?row :: repeat ?z ?n] =>
    replace (preF ++ row :: repeat z n) with ((preF ++ [row]) ++ repeat z n)
      by now rewrite <- app_assoc
  end.
  replace (S (length preF)) with (length (preS ++ [scale_wh s base]))
    by (rewrite length_app; simpl; lia).
  rewrite IH by (rewrite !length_app; simpl; lia).
  now rewrite <- app_assoc.
Qed.

(** [generate_anchors] in closed form: one row of rounded boxes per scale,
    one box per ratio inside it, flattened. *)
Lemma generate_anchors_closed (base_size : R) (ratios scales : list R) :
  generate_anchors base_size ratios scales
  = concat (map (fun s =>
                   map (fun r => round_box (anchor_unrounded base_size s r))
                     ratios) scales).
Proof.
  unfold generate_anchors, scale_loop.
  exact (f_equal (@concat Anchor)
           (scale_loop_closed (base_anchor base_size) ratios scales [] []
              eq_refl)).
Qed.

(** The box at flat index i * len(ratios) + j. *)
Lemma generate_anchors_entry (base_size : R) (ratios scales : list R)
  (i j : nat) (s r : R) :
  nth_error scales i = Some s -> nth_error ratios j = Some r ->
  nth_error (generate_anchors base_size ratios scales)
    (i * length ratios + j)
  = Some (round_box (anchor_unrounded base_size s r)).
Proof.
  intros Hs Hr. rewrite generate_anchors_closed.
  assert (F : Forall (fun l : list Anchor => length l = length ratios)
                (map (fun s0 =>
                        map (fun r0 =>
                               round_box (anchor_unrounded base_size s0 r0))
                          ratios) scales)).
  { apply Forall_forall. intros l Hl. apply in_map_iff in Hl.
    destruct Hl as [s0 [<- _]]. apply length_map. }
  rewrite (nth_error_concat_uniform (length ratios) _ F i j
             (map (fun r0 => round_box (anchor_unrounded base_size s r0))
                ratios)).
  - now rewrite nth_error_map, Hr.
  - now rewrite nth_error_map, Hs.
  - apply nth_error_Some. rewrite Hr. discriminate.
Qed.


(** The floor of an integer is the integer. *)
Lemma Int_part_IZR (z : Z) : Int_part (IZR z) = z.
Proof. symmetry. apply Int_part_spec. lra. Qed.

Lemma round_half_even_IZR (z : Z) : round_half_even (IZR z) = z.
Proof.
  unfold round_half_even. rewrite Int_part_IZR.
  destruct (Rlt_dec (IZR z - IZR z) (/ 2)) as [_|N]; [reflexivity|].
  exfalso. apply N. lra.
Qed.

Lemma py_int_IZR (z : Z) : py_int (IZR z) = z.
Proof.
  unfold py_int. destruct (Rle_dec 0 (IZR z)) as [_|_].
  - apply Int_part_IZR.
  - rewrite <- opp_IZR, Int_part_IZR. lia.
Qed.

Lemma py_int_half_even (m : Z) :
  IZR (py_int (IZR (2 * m) * / 2)) = IZR (2 * m) * / 2.
Proof.
  replace (IZR (2 * m) * / 2) with (IZR m) by (rewrite mult_IZR; lra).
  now rewrite py_int_IZR.
Qed.

Lemma np_sqrt_pos (r : R) : 0 < r -> np_sqrt r = Num (sqrt r).
Proof.
  intros H. unfold np_sqrt. destruct (Rlt_dec r 0); [lra | reflexivity].
Qed.

Lemma finv_np_sqrt_pos (r : R) :
  0 < r -> finv (np_sqrt r) = Num (/ sqrt r).
Proof.
  intros H. rewrite np_sqrt_pos by exact H. simpl.
  destruct (Req_dec_T (sqrt r) 0) as [E|_]; [|reflexivity].
  pose proof (sqrt_lt_R0 r H). lra.
Qed.


Lemma fmul_NotNum_r (x : fnum) : fmul x NotNum = NotNum.
Proof. now destruct x. Qed.

(** For a positive ratio the width and the height before rounding are the
    numbers [base_size * s * sqrt r] and [base_size * s / sqrt r]. *)
Lemma anchor_unrounded_pos (base_size s r : R) :
  0 < r ->
  a2 (anchor_unrounded base_size s r) = Num (base_size * s * sqrt r)
  /\ a3 (anchor_unrounded base_size s r) = Num (base_size * s * / sqrt r).
Proof.
  intros H. unfold anchor_unrounded, anchor_t, scale_wh, base_anchor.
  simpl. rewrite finv_np_sqrt_pos, np_sqrt_pos by exact H.
  split; reflexivity.
Qed.

(** 256 * sqrt 2 lies between 362 and 362.5, and 256 / sqrt 2 between 181
    and 181.5. *)
Lemma sqrt2_bounds :
  362 <= 256 * sqrt 2 < 362 + / 2 /\ 181 <= 256 * / sqrt 2 < 181 + / 2.
Proof.
  pose proof (sqrt_lt_R0 2 ltac:(lra)) as P.
  assert (S : sqrt 2 * sqrt 2 = 2) by (apply sqrt_sqrt; lra).
  assert (I : / sqrt 2 = sqrt 2 * / 2) by (field_simplify_eq; lra).
  rewrite I. repeat split; nra.
Qed.

Lemma round_half_even_near (x : R) (z : Z) :
  IZR z <= x < IZR z + / 2 -> round_half_even x = z.
Proof.
  intros [L U].
  assert (I : Int_part x = z) by (symmetry; apply Int_part_spec; lra).
  unfold round_half_even. rewrite I.
  destruct (Rlt_dec (x - IZR z) (/ 2)) as [_|N]; [reflexivity|].
  exfalso. apply N. lra.
Qed.

(** The default call, scale 16 and ratio 2: the box is [8, 8, 362, 181]. *)
Lemma generate_anchors_default_entry :
  nth_error (generate_anchors 16 [/ 2; 1; 2] [16; 32; 64]) 2
  = Some (mkAnchor (Num 8) (Num 8) (Num 362) (Num 181)).
Proof.
  pose proof (generate_anchors_entry 16 [/ 2; 1; 2] [16; 32; 64] 0 2 16 2
                eq_refl eq_refl) as E.
  change (Nat.add (Nat.mul 0 (length [/ 2; 1; 2])) 2) with 2%nat in E.
  rewrite E.
  destruct sqrt2_bounds as [W H].
  unfold round_box.
  destruct (anchor_unrounded_pos 16 16 2 ltac:(lra)) as [-> ->].
  unfold anchor_unrounded, anchor_t, scale_wh, base_anchor. simpl.
  replace (16 * / 2) with (IZR 8) by lra.
  rewrite py_int_IZR, round_half_even_IZR.
  replace (16 * 16 * sqrt 2) with (256 * sqrt 2) by lra.
  replace (16 * 16 * / sqrt 2) with (256 * / sqrt 2) by lra.
  rewrite (round_half_even_near (256 * sqrt 2) 362 W).
  rewrite (round_half_even_near (256 * / sqrt 2) 181 H).
  reflexivity.
Qed.




End GenerateAnchorsFacts.

(** ** Pairwise IoU *)

(** *** The tiled arrays hold every pair once, row-major *)

Lemma combine_repeat_l {A B : Type} (x : A) (l : list B) :
  combine (repeat x (length l)) l = map (fun y => (x, y)) l.
Proof.
  induction l as [|y l IH]; simpl; [reflexivity | now rewrite IH].
Qed.

Lemma combine_app_same {A B : Type} (l1 l2 : list A) (m1 m2 : list B) :
  length l1 = length m1 ->
  combine (l1 ++ l2) (m1 ++ m2) = combine l1 m1 ++ combine l2 m2.
Proof.
  revert m1; induction l1 as [|x l1 IH]; intros [|y m1] H; simpl in *;
    try discriminate; [reflexivity|].
  rewrite IH by lia. reflexivity.
Qed.

Lemma tiled_pairs (bb1 bb2 : array) :
  combine (tile_each bb1 (length bb2)) (tile_whole bb2 (length bb1))
  = list_prod bb1 bb2.
Proof.
  unfold tile_each, tile_whole.
  induction bb1 as [|x bb1 IH]; simpl; [reflexivity|].
  rewrite combine_app_same by apply repeat_length.
  now rewrite combine_repeat_l, IH.
Qed.

Lemma length_tile_each (bb1 : array) (n : nat) :
  length (tile_each bb1 n) = (length bb1 * n)%nat.
Proof.
  unfold tile_each. rewrite (length_concat_uniform n).
  - now rewrite length_map.
  - apply Forall_forall. intros l Hl. apply in_map_iff in Hl.
    destruct Hl as [b [<- _]]. apply repeat_length.
Qed.

Lemma length_tile_whole (bb2 : array) (n : nat) :
  length (tile_whole bb2 n) = (n * length bb2)%nat.
Proof.
  unfold tile_whole. rewrite (length_concat_uniform (length bb2)).
  - now rewrite repeat_length.
  - apply Forall_forall. intros l Hl. apply repeat_spec in Hl. now subst.
Qed.

Lemma map_fst_combine {A B : Type} (l : list A) (m : list B) :
  length l = length m -> map fst (combine l m) = l.
Proof.
  revert m; induction l as [|x l IH]; intros [|y m] H; simpl in *;
    try discriminate; [reflexivity|].
  rewrite IH by lia. reflexivity.
Qed.

Lemma map_snd_combine {A B : Type} (l : list A) (m : list B) :
  length l = length m -> map snd (combine l m) = m.
Proof.
  revert m; induction l as [|x l IH]; intros [|y m] H; simpl in *;
    try discriminate; [reflexivity|].
  rewrite IH by lia. reflexivity.
Qed.

Lemma tile_each_pairs (bb1 bb2 : array) :
  tile_each bb1 (length bb2) = map fst (list_prod bb1 bb2).
Proof.
  rewrite <- tiled_pairs, map_fst_combine; [reflexivity|].
  rewrite length_tile_each, length_tile_whole. reflexivity.
Qed.

Lemma tile_whole_pairs (bb1 bb2 : array) :
  tile_whole bb2 (length bb1) = map snd (list_prod bb1 bb2).
Proof.
  rewrite <- tiled_pairs, map_snd_combine; [reflexivity|].
  rewrite length_tile_each, length_tile_whole. reflexivity.
Qed.

Lemma nth_error_list_prod {A B : Type} (l : list A) (m : list B) :
  forall (i j : nat) (x : A) (y : B),
    nth_error l i = Some x -> nth_error m j = Some y ->
    nth_error (list_prod l m) (i * length m + j) = Some (x, y).
Proof.
  induction l as [|x0 l IH]; intros [|i] j x y Hx Hy; simpl in *;
    try discriminate.
  - injection Hx as <-.
    assert (Lj : (j < length m)%nat)
      by (apply nth_error_Some; rewrite Hy; discriminate).
    rewrite nth_error_app1 by (rewrite length_map; exact Lj).
    rewrite nth_error_map, Hy. reflexivity.
  - rewrite nth_error_app2 by (rewrite length_map; lia).
    rewrite length_map.
    replace (length m + i * length m + j - length m)%nat
      with (i * length m + j)%nat by lia.
    now apply IH.
Qed.

(** *** The three functions, entry by entry *)

Ltac pairwise :=
  unfold getcol, scale, plus1, mask_set;
  repeat (rewrite ?map_map; rewrite map2_map_same);
  rewrite ?map_map.

Lemma xyctrs_data (bb1 bb2 : boxes) :
  data (numpy_IoU_xyctrs bb1 bb2)
  = map (fun p => iou_xyctrs (fst p) (snd p))
      (list_prod (as_2d bb1) (as_2d bb2)).
Proof.
  unfold numpy_IoU_xyctrs, xyctrs_stages. cbv zeta.
  cbn [st_w st_h st_masked]. unfold np_squeeze, np_reshape, data.
  rewrite tile_each_pairs, tile_whole_pairs.
  pairwise. apply map_ext. intros [a b]. reflexivity.
Qed.

Lemma minmax_data (bb1 bb2 : boxes) :
  data (numpy_IoU_minmax bb1 bb2)
  = map (fun p => iou_minmax (fst p) (snd p))
      (list_prod (as_2d bb1) (as_2d bb2)).
Proof.
  unfold numpy_IoU_minmax. cbv zeta. unfold np_squeeze, np_reshape, data.
  rewrite tile_each_pairs, tile_whole_pairs.
  pairwise. apply map_ext. intros [a b]. reflexivity.
Qed.

Lemma batched_data (bb1_arr bb2_arr : array) :
  data (compute_IoU_body bb1_arr bb2_arr)
  = map (fun p => iou_batched (fst p) (snd p)) (list_prod bb1_arr bb2_arr).
Proof.
  unfold compute_IoU_body. cbv zeta. unfold np_reshape, data.
  rewrite tile_each_pairs, tile_whole_pairs.
  pairwise. apply map_ext. intros [a b]. reflexivity.
Qed.

(** *** Shapes and indexing *)

Lemma get_squeezed (d : list fval) (n_1 n_2 i j : nat) :
  (i < n_1)%nat -> (j < n_2)%nat ->
  get (np_squeeze (np_reshape d [n_1; n_2])) (pair_index n_1 n_2 i j)
  = nth_error d (i * n_2 + j).
Proof.
  intros Hi Hj. unfold get, np_squeeze, np_reshape, pair_index. simpl.
  destruct (Nat.eqb_spec n_1 1) as [E1|E1];
    destruct (Nat.eqb_spec n_2 1) as [E2|E2]; subst; simpl.
  - replace (i * 1 + j)%nat with 0%nat by lia. reflexivity.
  - destruct (Nat.ltb_spec j n_2); [|lia]. simpl. f_equal. lia.
  - destruct (Nat.ltb_spec i n_1); [|lia]. simpl. f_equal. lia.
  - destruct (Nat.ltb_spec i n_1); [|lia].
    destruct (Nat.ltb_spec j n_2); [|lia]. simpl. f_equal. lia.
Qed.

Lemma get_reshaped (d : list fval) (n_1 n_2 i j : nat) :
  (i < n_1)%nat -> (j < n_2)%nat ->
  get (np_reshape d [n_1; n_2]) [i; j] = nth_error d (i * n_2 + j).
Proof.
  intros Hi Hj. unfold get, np_reshape. simpl.
  destruct (Nat.ltb_spec i n_1); [|lia].
  destruct (Nat.ltb_spec j n_2); [|lia]. simpl. f_equal. lia.
Qed.

Lemma nth_error_lt {A : Type} (l : list A) (i : nat) (x : A) :
  nth_error l i = Some x -> (i < length l)%nat.
Proof. intros H. apply nth_error_Some. rewrite H. discriminate. Qed.

(** The entry for the pair (i, j) of each function. *)
Lemma xyctrs_entry (bb1 bb2 : boxes) (i j : nat) (a b : Box) :
  nth_error (as_2d bb1) i = Some a -> nth_error (as_2d bb2) j = Some b ->
  get (numpy_IoU_xyctrs bb1 bb2)
    (pair_index (length (as_2d bb1)) (length (as_2d bb2)) i j)
  = Some (iou_xyctrs a b).
Proof.
  intros Ha Hb.
  change (numpy_IoU_xyctrs bb1 bb2)
    with (np_squeeze (np_reshape (data (numpy_IoU_xyctrs bb1 bb2))
                        [length (as_2d bb1); length (as_2d bb2)])).
  rewrite get_squeezed by eauto using nth_error_lt.
  rewrite xyctrs_data, nth_error_map.
  now rewrite (nth_error_list_prod _ _ i j a b Ha Hb).
Qed.

Lemma minmax_entry (bb1 bb2 : boxes) (i j : nat) (a b : Box) :
  nth_error (as_2d bb1) i = Some a -> nth_error (as_2d bb2) j = Some b ->
  get (numpy_IoU_minmax bb1 bb2)
    (pair_index (length (as_2d bb1)) (length (as_2d bb2)) i j)
  = Some (iou_minmax a b).
Proof.
  intros Ha Hb.
  change (numpy_IoU_minmax bb1 bb2)
    with (np_squeeze (np_reshape (data (numpy_IoU_minmax bb1 bb2))
                        [length (as_2d bb1); length (as_2d bb2)])).
  rewrite get_squeezed by eauto using nth_error_lt.
  rewrite minmax_data, nth_error_map.
  now rewrite (nth_error_list_prod _ _ i j a b Ha Hb).
Qed.

Lemma batched_entry (bb1_arr bb2_arr : array) (i j : nat) (a b : Box) :
  nth_error bb1_arr i = Some a -> nth_error bb2_arr j = Some b ->
  get (compute_IoU_body bb1_arr bb2_arr) [i; j] = Some (iou_batched a b).
Proof.
  intros Ha Hb.
  change (compute_IoU_body bb1_arr bb2_arr)
    with (np_reshape (data (compute_IoU_body bb1_arr bb2_arr))
            [length bb1_arr; length bb2_arr]).
  rewrite get_reshaped by eauto using nth_error_lt.
  rewrite batched_data, nth_error_map.
  now rewrite (nth_error_list_prod _ _ i j a b Ha Hb).
Qed.

(** *** The masked quotient *)

Lemma Qeq_bool_false (x y : Q) : Qeq_bool x y = false -> ~ x == y.
Proof. intros H E. apply Qeq_bool_iff in E. congruence. Qed.

Lemma Qle_bool_false (x y : Q) : Qle_bool x y = false -> y < x.
Proof.
  intros H. apply Qnot_le_lt. intros E. apply Qle_bool_iff in E. congruence.
Qed.

(** The divisor of line 153 is never zero: no entry of the quotient is
    infinite or NaN. *)
Lemma masked_iou_finite (w h denom : Q) :
  exists q : Q, masked_iou w h denom = Fin q.
Proof.
  unfold masked_iou, fdiv.
  destruct (Qle_bool h 0); [now exists 0|].
  destruct (Qle_bool w 0); [now exists 0|].
  destruct (Qeq_bool denom 0) eqn:E; [now exists 0|].
  rewrite E. eauto.
Qed.

Lemma masked_iou_degenerate (w h denom : Q) :
  w <= 0 \/ h <= 0 \/ denom == 0 -> masked_iou w h denom = Fin 0.
Proof.
  intros H. unfold masked_iou.
  destruct (Qle_bool h 0) eqn:Eh; [reflexivity|].
  destruct (Qle_bool w 0) eqn:Ew; [reflexivity|].
  destruct (Qeq_bool denom 0) eqn:Ed; [reflexivity|].
  exfalso. apply Qle_bool_false in Eh, Ew. apply Qeq_bool_false in Ed.
  destruct H as [H|[H|H]]; [lra | lra | contradiction].
Qed.

Lemma masked_iou_regular (w h denom : Q) :
  0 < w -> 0 < h -> ~ denom == 0 ->
  masked_iou w h denom = Fin (w * h / denom).
Proof.
  intros Hw Hh Hd. unfold masked_iou, fdiv.
  destruct (Qle_bool h 0) eqn:Eh; [apply Qle_bool_iff in Eh; lra|].
  destruct (Qle_bool w 0) eqn:Ew; [apply Qle_bool_iff in Ew; lra|].
  destruct (Qeq_bool denom 0) eqn:Ed;
    [apply Qeq_bool_iff in Ed; contradiction|].
  now rewrite Ed.
Qed.

(** The result of [numpy_IoU_xyctrs] is made from its intermediate arrays
    the way lines 150 to 158 say. *)
Lemma xyctrs_stages_result (bb1 bb2 : boxes) :
  let s := xyctrs_stages bb1 bb2 in
  st_mask s = map (fun d => Qeq_bool d 0) (st_denom s)
  /\ st_divisor s = mask_set (st_mask s) tenth (st_denom s)
  /\ st_quotient s = map2 fdiv (st_inter s) (st_divisor s)
  /\ st_masked s = mask_set (st_mask s) (Fin 0) (st_quotient s)
  /\ numpy_IoU_xyctrs bb1 bb2
     = np_squeeze
         (np_reshape
            (mask_set (map (fun x => Qle_bool x 0) (st_h s)) (Fin 0)
               (mask_set (map (fun x => Qle_bool x 0) (st_w s)) (Fin 0)
                  (st_masked s)))
            [length (as_2d bb1); length (as_2d bb2)]).
Proof. repeat split. Qed.





(** *** The graph form *)

Lemma relu_nonneg (x : Q) : 0 <= relu x.
Proof. unfold relu. apply Q.le_max_r. Qed.

Lemma relu_of_neg (x : Q) : x <= 0 -> relu x == 0.
Proof. intros H. unfold relu. now apply Q.max_r. Qed.

Lemma relu_of_pos (x : Q) : 0 <= x -> relu x == x.
Proof. intros H. unfold relu. now apply Q.max_l. Qed.

(** With [tf] bound, entry (i, j) of the body is the quotient
    inter / (area1 + area2 - inter), where the extents of the intersection
    are x2 - x1 + 1 and y2 - y1 + 1 cut off at zero by the rectifier, the
    areas are (height + 1) * (width + 1), and nothing guards the division:
    where the denominator is 0 the entry is not a number. *)
Lemma compute_IoU_body_formula (bb1_arr bb2_arr : array) (i j : nat)
  (a b : Box) :
  nth_error bb1_arr i = Some a -> nth_error bb2_arr j = Some b ->
  let w0 := x2_xyctrs a b - x1_xyctrs a b + 1 in
  let h0 := y2_xyctrs a b - y1_xyctrs a b + 1 in
  let w := relu w0 in
  let h := relu h0 in
  let inter := w * h in
  let area1 := (b3 a + 1) * (b2 a + 1) in
  let area2 := (b3 b + 1) * (b2 b + 1) in
  shape (compute_IoU_body bb1_arr bb2_arr) = [length bb1_arr; length bb2_arr]
  /\ get (compute_IoU_body bb1_arr bb2_arr) [i; j]
     = Some (fdiv inter (area1 + area2 - inter))
  /\ (w0 <= 0 -> w == 0) /\ (0 <= w0 -> w == w0)
  /\ (h0 <= 0 -> h == 0) /\ (0 <= h0 -> h == h0)
  /\ (area1 + area2 - inter == 0 ->
      get (compute_IoU_body bb1_arr bb2_arr) [i; j] = Some NonFinite)
  /\ (~ area1 + area2 - inter == 0 ->
      get (compute_IoU_body bb1_arr bb2_arr) [i; j]
      = Some (Fin (inter / (area1 + area2 - inter)))).
Proof.
  intros Ha Hb w0 h0 w h inter area1 area2.
  rewrite (batched_entry _ _ _ _ _ _ Ha Hb).
  split; [reflexivity|]. split; [reflexivity|].
  split; [apply relu_of_neg|]. split; [apply relu_of_pos|].
  split; [apply relu_of_neg|]. split; [apply relu_of_pos|].
  change (iou_batched a b) with (fdiv inter (area1 + area2 - inter)).
  unfold fdiv. split; intros H.
  - apply Qeq_bool_iff in H. now rewrite H.
  - destruct (Qeq_bool (area1 + area2 - inter) 0) eqn:E; [|reflexivity].
    apply Qeq_bool_iff in E. contradiction.
Qed.

(** C4, code_bug.  [compute_IoU] returns no matrix: the module never binds
    [tf], so every call raises NameError at line 246, whatever the two
    box sets, where the claim has it return the quotients of the +1
    convention. *)
Theorem C4_compute_IoU_raises_NameError (bb1_arr bb2_arr : array) :
  compute_IoU bb1_arr bb2_arr = Raise NameError.
Proof. reflexivity. Qed.

(** *** The shape of the result *)

(** The shape [np.squeeze] leaves of (n_1, n_2). *)
Lemma squeezed_shape_cases (n_1 n_2 : nat) :
  let s := filter (fun d => negb (Nat.eqb d 1)) [n_1; n_2] in
  (n_1 <> 1%nat -> n_2 <> 1%nat -> s = [n_1; n_2])
  /\ (n_1 = 1%nat -> n_2 <> 1%nat -> s = [n_2])
  /\ (n_1 <> 1%nat -> n_2 = 1%nat -> s = [n_1])
  /\ (s = [] <-> n_1 = 1%nat /\ n_2 = 1%nat).
Proof.
  simpl.
  destruct (Nat.eqb_spec n_1 1) as [E1|E1];
    destruct (Nat.eqb_spec n_2 1) as [E2|E2]; simpl;
    repeat split; intros; try reflexivity; try contradiction;
    try discriminate; try tauto.
Qed.

Lemma length_list_prod {A B : Type} (l : list A) (m : list B) :
  length (list_prod l m) = (length l * length m)%nat.
Proof.
  induction l as [|x l IH]; simpl; [reflexivity|].
  now rewrite length_app, length_map, IH.
Qed.

(** C7, amended.  Both numpy functions return the n_1 * n_2 entries of the
    (n_1, n_2) array with every axis of length 1 removed: the shape is
    (n_1, n_2) when neither size is 1, (n_2,) when only n_1 is 1, (n_1,)
    when only n_2 is 1, and the result is a scalar exactly when
    n_1 = n_2 = 1. *)
Theorem C7_result_shape (bb1 bb2 : boxes) :
  let n_1 := length (as_2d bb1) in
  let n_2 := length (as_2d bb2) in
  forall f : boxes -> boxes -> ndarray,
    f = numpy_IoU_xyctrs \/ f = numpy_IoU_minmax ->
    length (data (f bb1 bb2)) = (n_1 * n_2)%nat
    /\ (n_1 <> 1%nat -> n_2 <> 1%nat -> shape (f bb1 bb2) = [n_1; n_2])
    /\ (n_1 = 1%nat -> n_2 <> 1%nat -> shape (f bb1 bb2) = [n_2])
    /\ (n_1 <> 1%nat -> n_2 = 1%nat -> shape (f bb1 bb2) = [n_1])
    /\ (shape (f bb1 bb2) = [] <-> n_1 = 1%nat /\ n_2 = 1%nat).
Proof.
  intros n_1 n_2 f [-> | ->]; split.
  - now rewrite xyctrs_data, length_map, length_list_prod.
  - apply (squeezed_shape_cases n_1 n_2).
  - now rewrite minmax_data, length_map, length_list_prod.
  - apply (squeezed_shape_cases n_1 n_2).
Qed.

Lemma C7_result_shape_witness :
  let b := mkBox 0 0 10 10 in
  shape (numpy_IoU_xyctrs (OneBox b) (BoxSet [b; b])) = [2%nat]
  /\ shape (numpy_IoU_minmax (BoxSet [b; b]) (BoxSet [b; b; b]))
     = [2%nat; 3%nat]
  /\ shape (numpy_IoU_minmax (BoxSet [b]) (OneBox b)) = [].
Proof.
  intros b. split; [|split].
  - apply (proj1 (proj2 (proj2
             (C7_result_shape (OneBox b) (BoxSet [b; b]) numpy_IoU_xyctrs
                (or_introl eq_refl))))); [reflexivity | discriminate].
  - apply (proj1 (proj2
             (C7_result_shape (BoxSet [b; b]) (BoxSet [b; b; b])
                numpy_IoU_minmax (or_intror eq_refl)))); discriminate.
  - apply (proj2 (proj2 (proj2 (proj2
             (C7_result_shape (BoxSet [b]) (OneBox b) numpy_IoU_minmax
                (or_intror eq_refl)))))).
    split; reflexivity.
Defined.

(** C7 as stated fails: one box against a set of two gives the shape (2,),
    not (1, 2). *)
Lemma C7_shape_counterexample :
  let bb1 := OneBox (mkBox 0 0 10 10) in
  let bb2 := BoxSet [mkBox 0 0 10 10; mkBox 5 5 10 10] in
  shape (numpy_IoU_xyctrs bb1 bb2)
  <> [length (as_2d bb1); length (as_2d bb2)].
Proof. intros bb1 bb2. vm_compute. discriminate. Qed.

(** *** Symmetry *)

Lemma masked_iou_proper (w h d w' h' d' : Q) :
  w == w' -> h == h' -> d == d' ->
  fval_eq (masked_iou w h d) (masked_iou w' h' d').
Proof.
  intros Ew Eh Ed.
  destruct (Qlt_le_dec 0 h) as [Hh|Hh];
    [|rewrite !masked_iou_degenerate; [reflexivity | | ]; right; left; lra].
  destruct (Qlt_le_dec 0 w) as [Hw|Hw];
    [|rewrite !masked_iou_degenerate; [reflexivity | | ]; left; lra].
  destruct (Qeq_dec d 0) as [Hd|Hd].
  - rewrite !masked_iou_degenerate; [reflexivity | | ]; right; right;
      [rewrite <- Ed|]; exact Hd.
  - assert (Hd' : ~ d' == 0) by (now rewrite <- Ed).
    assert (Hw' : 0 < w') by lra.
    assert (Hh' : 0 < h') by lra.
    rewrite (masked_iou_regular w h d Hw Hh Hd).
    rewrite (masked_iou_regular w' h' d' Hw' Hh' Hd').
    simpl. now rewrite Ew, Eh, Ed.
Qed.

Lemma w_xyctrs_sym (a b : Box) : w_xyctrs a b == w_xyctrs b a.
Proof.
  unfold w_xyctrs, x2_xyctrs, x1_xyctrs.
  now rewrite (Q.min_comm (b0 a + _)), (Q.max_comm (b0 a - _)).
Qed.

Lemma h_xyctrs_sym (a b : Box) : h_xyctrs a b == h_xyctrs b a.
Proof.
  unfold h_xyctrs, y2_xyctrs, y1_xyctrs.
  now rewrite (Q.min_comm (b1 a + _)), (Q.max_comm (b1 a - _)).
Qed.

Lemma iou_xyctrs_sym (a b : Box) : fval_eq (iou_xyctrs a b) (iou_xyctrs b a).
Proof.
  unfold iou_xyctrs. apply masked_iou_proper.
  - apply w_xyctrs_sym.
  - apply h_xyctrs_sym.
  - unfold denom_xyctrs. rewrite (w_xyctrs_sym a b), (h_xyctrs_sym a b).
    ring.
Qed.

(** C8.  [numpy_IoU_xyctrs(A, B)] is the transpose of
    [numpy_IoU_xyctrs(B, A)]: the two shapes are each other's reverse and
    the entry of the pair (i, j) in the first equals the entry of the pair
    (j, i) in the second. *)
Theorem C8_iou_xyctrs_transpose (A B : boxes) (i j : nat) (a b : Box) :
  nth_error (as_2d A) i = Some a -> nth_error (as_2d B) j = Some b ->
  let n_1 := length (as_2d A) in
  let n_2 := length (as_2d B) in
  shape (numpy_IoU_xyctrs B A) = rev (shape (numpy_IoU_xyctrs A B))
  /\ exists x y : fval,
      get (numpy_IoU_xyctrs A B) (pair_index n_1 n_2 i j) = Some x
      /\ get (numpy_IoU_xyctrs B A) (pair_index n_2 n_1 j i) = Some y
      /\ fval_eq x y.
Proof.
  intros Ha Hb n_1 n_2. split.
  - unfold numpy_IoU_xyctrs, np_squeeze, np_reshape. simpl.
    fold n_1 n_2.
    destruct (Nat.eqb n_1 1); destruct (Nat.eqb n_2 1); reflexivity.
  - exists (iou_xyctrs a b), (iou_xyctrs b a). split; [|split].
    + apply xyctrs_entry; assumption.
    + apply xyctrs_entry; assumption.
    + apply iou_xyctrs_sym.
Qed.

Lemma C8_iou_xyctrs_transpose_witness :
  let A := BoxSet [mkBox 0 0 10 10; mkBox 5 5 10 10] in
  let B := BoxSet [mkBox 2 2 4 4; mkBox 0 0 10 10; mkBox 7 7 2 2] in
  exists x y : fval,
    get (numpy_IoU_xyctrs A B) (pair_index 2 3 1 2) = Some x
    /\ get (numpy_IoU_xyctrs B A) (pair_index 3 2 2 1) = Some y
    /\ fval_eq x y.
Proof.
  intros A B.
  apply (proj2 (C8_iou_xyctrs_transpose A B 1%nat 2%nat
                  (mkBox 5 5 10 10) (mkBox 7 7 2 2) eq_refl eq_refl)).
Defined.

(** *** The range of the entries *)

(** An intersection no larger than either area gives a quotient in
    [0, 1]. *)
Lemma masked_iou_in_unit (w h A B : Q) :
  (0 < w -> 0 < h -> w * h <= A /\ w * h <= B) ->
  in_unit (masked_iou w h (A + B - w * h)).
Proof.
  intros Hb.
  destruct (Qlt_le_dec 0 h) as [Hh|Hh];
    [|rewrite masked_iou_degenerate; [simpl; lra | right; left; exact Hh]].
  destruct (Qlt_le_dec 0 w) as [Hw|Hw];
    [|rewrite masked_iou_degenerate; [simpl; lra | left; exact Hw]].
  destruct (Hb Hw Hh) as [HA HB].
  assert (Hi : 0 < w * h) by nra.
  assert (Hd : 0 < A + B - w * h) by lra.
  rewrite masked_iou_regular by (try assumption; lra).
  simpl. split.
  - apply Qle_shift_div_l; [exact Hd | lra].
  - apply Qle_shift_div_r; [exact Hd | lra].
Qed.

Lemma w_xyctrs_le (a b : Box) :
  w_xyctrs a b <= b2 a /\ w_xyctrs a b <= b2 b.
Proof.
  unfold w_xyctrs, x2_xyctrs, x1_xyctrs, half.
  pose proof (Q.le_min_l (b0 a + (1 # 2) * b2 a) (b0 b + (1 # 2) * b2 b)).
  pose proof (Q.le_min_r (b0 a + (1 # 2) * b2 a) (b0 b + (1 # 2) * b2 b)).
  pose proof (Q.le_max_l (b0 a - (1 # 2) * b2 a) (b0 b - (1 # 2) * b2 b)).
  pose proof (Q.le_max_r (b0 a - (1 # 2) * b2 a) (b0 b - (1 # 2) * b2 b)).
  split; lra.
Qed.

Lemma h_xyctrs_le (a b : Box) :
  h_xyctrs a b <= b3 a /\ h_xyctrs a b <= b3 b.
Proof.
  unfold h_xyctrs, y2_xyctrs, y1_xyctrs, half.
  pose proof (Q.le_min_l (b1 a + (1 # 2) * b3 a) (b1 b + (1 # 2) * b3 b)).
  pose proof (Q.le_min_r (b1 a + (1 # 2) * b3 a) (b1 b + (1 # 2) * b3 b)).
  pose proof (Q.le_max_l (b1 a - (1 # 2) * b3 a) (b1 b - (1 # 2) * b3 b)).
  pose proof (Q.le_max_r (b1 a - (1 # 2) * b3 a) (b1 b - (1 # 2) * b3 b)).
  split; lra.
Qed.

Lemma w_minmax_le (a b : Box) :
  w_minmax a b <= b2 a - b0 a /\ w_minmax a b <= b2 b - b0 b.
Proof.
  unfold w_minmax.
  pose proof (Q.le_min_l (b2 a) (b2 b)).
  pose proof (Q.le_min_r (b2 a) (b2 b)).
  pose proof (Q.le_max_l (b0 a) (b0 b)).
  pose proof (Q.le_max_r (b0 a) (b0 b)).
  split; lra.
Qed.

Lemma h_minmax_le (a b : Box) :
  h_minmax a b <= b3 a - b1 a /\ h_minmax a b <= b3 b - b1 b.
Proof.
  unfold h_minmax.
  pose proof (Q.le_min_l (b3 a) (b3 b)).
  pose proof (Q.le_min_r (b3 a) (b3 b)).
  pose proof (Q.le_max_l (b1 a) (b1 b)).
  pose proof (Q.le_max_r (b1 a) (b1 b)).
  split; lra.
Qed.

Lemma iou_xyctrs_in_unit (a b : Box) : in_unit (iou_xyctrs a b).
Proof.
  unfold iou_xyctrs, denom_xyctrs. apply masked_iou_in_unit.
  intros Hw Hh. unfold area_xyctrs.
  destruct (w_xyctrs_le a b), (h_xyctrs_le a b). split; nra.
Qed.

Lemma iou_minmax_in_unit (a b : Box) : in_unit (iou_minmax a b).
Proof.
  unfold iou_minmax, denom_minmax. apply masked_iou_in_unit.
  intros Hw Hh. unfold area_minmax.
  destruct (w_minmax_le a b), (h_minmax_le a b). split; nra.
Qed.

(** In exact arithmetic every entry of [numpy_IoU_xyctrs] and of
    [numpy_IoU_minmax] is a number of [0, 1], whatever the boxes: no
    condition on the sign of a width or height, or on the order of the
    corners, is assumed. *)
Lemma exact_entries_in_unit_interval (bb1 bb2 : boxes) (i j : nat)
  (a b : Box) :
  nth_error (as_2d bb1) i = Some a -> nth_error (as_2d bb2) j = Some b ->
  let idx := pair_index (length (as_2d bb1)) (length (as_2d bb2)) i j in
  (exists x : fval, get (numpy_IoU_xyctrs bb1 bb2) idx = Some x /\ in_unit x)
  /\ (exists y : fval,
         get (numpy_IoU_minmax bb1 bb2) idx = Some y /\ in_unit y).
Proof.
  intros Ha Hb idx. split.
  - exists (iou_xyctrs a b). split.
    + apply xyctrs_entry; assumption.
    + apply iou_xyctrs_in_unit.
  - exists (iou_minmax a b). split.
    + apply minmax_entry; assumption.
    + apply iou_minmax_in_unit.
Qed.

(** C9, code_bug.  In binary64 the entries leave [0, 1]: the centre-form
    IoU of the box [0.1, 0.1, 0.1, 0.1] with itself is 1.0000000000000004,
    above 1, and the IoU of the box [0, 0, 1e200, 1e200] with itself is NaN
    in both functions, where the docstrings and the claim have every entry
    between 0 and 1. *)
Theorem C9_binary64_entries_leave_unit_interval :
  PrimFloat.ltb PrimFloat.one (numpy_IoU_xyctrs_f64 tenth_box tenth_box) = true
  /\ numpy_IoU_xyctrs_f64 tenth_box tenth_box = above_one
  /\ PrimFloat.is_nan (numpy_IoU_xyctrs_f64 huge_box huge_box) = true
  /\ PrimFloat.is_nan (numpy_IoU_minmax_f64 huge_box huge_box) = true.
Proof. repeat split. Qed.

(** In exact arithmetic every entry of the flat result is in [0, 1] as
    well, with no index in sight. *)
Lemma all_entries_in_unit (bb1 bb2 : boxes) :
  Forall in_unit (data (numpy_IoU_xyctrs bb1 bb2))
  /\ Forall in_unit (data (numpy_IoU_minmax bb1 bb2)).
Proof.
  rewrite xyctrs_data, minmax_data. split; apply Forall_forall;
    intros x Hx; apply in_map_iff in Hx; destruct Hx as [[a b] [<- _]].
  - apply iou_xyctrs_in_unit.
  - apply iou_minmax_in_unit.
Qed.

(** The example of the specification: two corner-form boxes with
    intersection 25 and union 175. *)
Example iou_minmax_example :
  numpy_IoU_minmax (OneBox (mkBox 0 0 10 10)) (OneBox (mkBox 5 5 15 15))
  = mkArr [] [Fin (25 # 175)].
Proof. reflexivity. Qed.

(** * Further properties of the module *)

(** ** Coordinate conversion *)

(** X1.  With [in_place = False], [anchors_whctrs_to_minmax] returns a
    reference the store did not hold before, to a new object; the store it
    leaves is the old one with that object appended, so the argument and
    every other object are as they were. *)
Theorem X1_to_minmax_returns_fresh_copy (h : heap) (r : ref) (a : array) :
  nth_error h r = Some a ->
  exists (m : ref) (out : array),
    anchors_whctrs_to_minmax r false h = (h ++ [out], Ok m)
    /\ m = length h
    /\ m <> r
    /\ nth_error (h ++ [out]) m = Some out
    /\ nth_error (h ++ [out]) r = Some a
    /\ length out = length a.
Proof.
  intros H. exists (length h), (map to_minmax_row a).
  pose proof (nth_error_lt h r a H) as L.
  split; [apply whctrs_to_minmax_copy; exact H|].
  split; [reflexivity|]. split; [lia|].
  split; [apply nth_error_snoc|].
  split; [now rewrite nth_error_app1|]. apply length_map.
Qed.

Lemma X1_to_minmax_returns_fresh_copy_witness :
  exists (m : ref) (out : array),
    anchors_whctrs_to_minmax 0%nat false [[mkBox 5 5 10 10]]
    = ([[mkBox 5 5 10 10]] ++ [out], Ok m)
    /\ m = 1%nat
    /\ m <> 0%nat
    /\ nth_error ([[mkBox 5 5 10 10]] ++ [out]) m = Some out
    /\ nth_error ([[mkBox 5 5 10 10]] ++ [out]) 0 = Some [mkBox 5 5 10 10]
    /\ length out = 1%nat.
Proof.
  apply (X1_to_minmax_returns_fresh_copy [[mkBox 5 5 10 10]] 0%nat
           [mkBox 5 5 10 10]).
  reflexivity.
Defined.

(** X2.  With [in_place = True], [anchors_whctrs_to_minmax] returns the
    reference it was given: the object behind it now holds the converted
    rows, the store has as many objects as before and every other object
    is untouched. *)
Theorem X2_to_minmax_in_place_aliases (h : heap) (r : ref) (a : array) :
  nth_error h r = Some a ->
  exists h' : heap,
    anchors_whctrs_to_minmax r true h = (h', Ok r)
    /\ nth_error h' r = Some (map to_minmax_row a)
    /\ length h' = length h
    /\ forall r' : ref, r' <> r -> nth_error h' r' = nth_error h r'.
Proof.
  intros H. exists (heap_set r (map to_minmax_row a) h).
  split; [apply whctrs_to_minmax_at; exact H|].
  split; [apply nth_error_heap_set_same with (x := a); exact H|].
  split.
  - clear H. revert r. induction h as [|x h IH]; intros [|r]; simpl;
      try reflexivity. now rewrite IH.
  - intros r' Hr. apply nth_error_heap_set_other. congruence.
Qed.

Lemma X2_to_minmax_in_place_aliases_witness :
  exists h' : heap,
    anchors_whctrs_to_minmax 1%nat true [[mkBox 1 1 2 2]; [mkBox 5 5 10 10]]
    = (h', Ok 1%nat)
    /\ nth_error h' 1 = Some (map to_minmax_row [mkBox 5 5 10 10])
    /\ length h' = 2%nat
    /\ forall r' : ref,
        r' <> 1%nat ->
        nth_error h' r'
        = nth_error [[mkBox 1 1 2 2]; [mkBox 5 5 10 10]] r'.
Proof.
  apply (X2_to_minmax_in_place_aliases
           [[mkBox 1 1 2 2]; [mkBox 5 5 10 10]] 1%nat [mkBox 5 5 10 10]).
  reflexivity.
Defined.

(** X3.  Row k of the array [anchors_whctrs_to_minmax] produces is the
    corner form of row k of its argument: the corners are the centre minus
    and plus half the extent, their difference is the width (height), their
    mean the centre, and for a non-negative width (height) the minimum is
    not above the maximum. *)
Theorem X3_to_minmax_rows (h : heap) (r : ref) (a : array) (k : nat)
  (b : Box) :
  nth_error h r = Some a -> nth_error a k = Some b ->
  exists (out : array) (b' : Box),
    nth_error (fst (anchors_whctrs_to_minmax r false h)) (length h)
    = Some out
    /\ nth_error out k = Some b'
    /\ b0 b' == b0 b - b2 b / 2 /\ b1 b' == b1 b - b3 b / 2
    /\ b2 b' == b0 b + b2 b / 2 /\ b3 b' == b1 b + b3 b / 2
    /\ b2 b' - b0 b' == b2 b /\ b3 b' - b1 b' == b3 b
    /\ (b0 b' + b2 b') / 2 == b0 b /\ (b1 b' + b3 b') / 2 == b1 b
    /\ (0 <= b2 b -> b0 b' <= b2 b')
    /\ (0 <= b3 b -> b1 b' <= b3 b').
Proof.
  intros H Hk. exists (map to_minmax_row a), (to_minmax_row b).
  rewrite (whctrs_to_minmax_copy h r a H). simpl fst.
  split; [apply nth_error_snoc|].
  split; [now rewrite nth_error_map, Hk|].
  destruct b as [x y w hh]. unfold to_minmax_row, half. simpl.
  repeat split; try field; intros; lra.
Qed.

Lemma X3_to_minmax_rows_witness :
  exists (out : array) (b' : Box),
    nth_error
      (fst (anchors_whctrs_to_minmax 0%nat false
              [[mkBox 5 5 10 10; mkBox 3 4 2 6]])) 1 = Some out
    /\ nth_error out 1 = Some b'
    /\ b0 b' == 3 - 2 / 2 /\ b1 b' == 4 - 6 / 2
    /\ b2 b' == 3 + 2 / 2 /\ b3 b' == 4 + 6 / 2
    /\ b2 b' - b0 b' == 2 /\ b3 b' - b1 b' == 6
    /\ (b0 b' + b2 b') / 2 == 3 /\ (b1 b' + b3 b') / 2 == 4
    /\ (0 <= 2 -> b0 b' <= b2 b')
    /\ (0 <= 6 -> b1 b' <= b3 b').
Proof.
  apply (X3_to_minmax_rows [[mkBox 5 5 10 10; mkBox 3 4 2 6]] 0%nat
           [mkBox 5 5 10 10; mkBox 3 4 2 6] 1%nat (mkBox 3 4 2 6));
    reflexivity.
Defined.

(** X4.  The failing assignment of [anchors_minmax_to_whctrs] comes before
    any write: called with [in_place = True] it raises and leaves the whole
    store, the caller's array included, exactly as it was. *)
Theorem X4_to_whctrs_in_place_writes_nothing (h : heap) (r : ref)
  (a : array) :
  nth_error h r = Some a ->
  anchors_minmax_to_whctrs r true h = (h, Raise ValueError).
Proof. apply minmax_to_whctrs_at. Qed.

Lemma X4_to_whctrs_in_place_writes_nothing_witness :
  anchors_minmax_to_whctrs 0%nat true
    [[mkBox 0 0 1 1; mkBox 0 0 2 2; mkBox 0 0 3 3; mkBox 0 0 4 4]]
  = ([[mkBox 0 0 1 1; mkBox 0 0 2 2; mkBox 0 0 3 3; mkBox 0 0 4 4]],
     Raise ValueError).
Proof.
  apply (X4_to_whctrs_in_place_writes_nothing
           [[mkBox 0 0 1 1; mkBox 0 0 2 2; mkBox 0 0 3 3; mkBox 0 0 4 4]]
           0%nat
           [mkBox 0 0 1 1; mkBox 0 0 2 2; mkBox 0 0 3 3; mkBox 0 0 4 4]).
  reflexivity.
Defined.

(** ** Anchor tiling *)

Lemma concat_map_nil {A B : Type} (l : list A) :
  concat (map (fun _ : A => @nil B) l) = [].
Proof. induction l as [|x l IH]; simpl; auto. Qed.

(** X5.  [pad_anchors] returns the empty box set when a tile count is 0 or
    the template is empty: no tile, no box. *)
Theorem X5_pad_anchors_empty (T : array) (nx ny : nat) (sx sy : Q) :
  pad_anchors T 0 ny sx sy = []
  /\ pad_anchors T nx 0 sx sy = []
  /\ pad_anchors [] nx ny sx sy = [].
Proof.
  rewrite !pad_anchors_closed. simpl. split; [reflexivity|].
  split.
  - apply concat_map_nil.
  - rewrite (map_ext _ (fun _ : nat => @nil Box)).
    + apply concat_map_nil.
    + intros i. apply concat_map_nil.
Qed.

Lemma concat_map_const {A B : Type} (x : list B) (l : list A) :
  concat (map (fun _ : A => x) l) = concat (repeat x (length l)).
Proof. induction l as [|y l IH]; simpl; [reflexivity | now rewrite IH]. Qed.

Lemma concat_repeat_mul {A : Type} (x : list A) (n m : nat) :
  concat (repeat (concat (repeat x n)) m) = concat (repeat x (m * n)).
Proof.
  induction m as [|m IH]; simpl; [reflexivity|].
  now rewrite IH, repeat_app, concat_app.
Qed.

(** X6.  Tiling moves boxes and never resizes them: the width column of
    the result is the width column of the template repeated once per
    tile, and so is the height column. *)
Theorem X6_pad_anchors_keeps_sizes (T : array) (nx ny : nat) (sx sy : Q) :
  getcol C2 (pad_anchors T nx ny sx sy)
  = concat (repeat (getcol C2 T) (nx * ny))
  /\ getcol C3 (pad_anchors T nx ny sx sy)
     = concat (repeat (getcol C3 T) (nx * ny)).
Proof.
  rewrite pad_anchors_closed. unfold getcol.
  split.
  - rewrite concat_map, map_map.
    rewrite (map_ext _ (fun _ : nat => concat (repeat (map (getc C2) T) ny))).
    + rewrite concat_map_const, length_seq. apply concat_repeat_mul.
    + intros i. rewrite concat_map, map_map.
      rewrite (map_ext _ (fun _ : nat => map (getc C2) T)).
      * now rewrite concat_map_const, length_seq.
      * intros j. rewrite map_map. apply map_ext. intros [x y w h].
        reflexivity.
  - rewrite concat_map, map_map.
    rewrite (map_ext _ (fun _ : nat => concat (repeat (map (getc C3) T) ny))).
    + rewrite concat_map_const, length_seq. apply concat_repeat_mul.
    + intros i. rewrite concat_map, map_map.
      rewrite (map_ext _ (fun _ : nat => map (getc C3) T)).
      * now rewrite concat_map_const, length_seq.
      * intros j. rewrite map_map. apply map_ext. intros [x y w h].
        reflexivity.
Qed.

Lemma Forall2_map_both {A B : Type} (R : B -> B -> Prop) (f g : A -> B)
  (l : list A) :
  (forall x, R (f x) (g x)) -> Forall2 R (map f l) (map g l).
Proof. intros H. induction l as [|x l IH]; simpl; constructor; auto. Qed.

Lemma Forall2_concat_map {A B : Type} (R : B -> B -> Prop)
  (f g : A -> list B) (l : list A) :
  (forall x, Forall2 R (f x) (g x)) ->
  Forall2 R (concat (map f l)) (concat (map g l)).
Proof.
  intros H. induction l as [|x l IH]; simpl; [constructor|].
  apply Forall2_app; auto.
Qed.

(** X7.  A single tile is the template itself, whatever the strides. *)
Theorem X7_pad_anchors_single_tile (T : array) (sx sy : Q) :
  Forall2 Box_eq (pad_anchors T 1 1 sx sy) T.
Proof.
  rewrite pad_anchors_closed. simpl. rewrite !app_nil_r.
  rewrite <- (map_id T) at 2. apply Forall2_map_both.
  intros [x y w h]. unfold shifted, Box_eq, of_nat. simpl.
  repeat split; ring.
Qed.

(** X8.  Tiling composes: a column of [ny] tiles tiled again into a row of
    [nx] gives the [nx] by [ny] grid, box for box in the same order (the
    strides of the directions not tiled play no part). *)
Theorem X8_pad_anchors_composes (T : array) (nx ny : nat)
  (sx sy sx' sy' : Q) :
  Forall2 Box_eq
    (pad_anchors (pad_anchors T 1 ny sx' sy) nx 1 sx sy')
    (pad_anchors T nx ny sx sy).
Proof.
  rewrite !pad_anchors_closed. simpl map at 3. simpl concat at 4.
  rewrite app_nil_r.
  apply Forall2_concat_map. intros i. simpl. rewrite app_nil_r.
  rewrite concat_map, map_map. apply Forall2_concat_map. intros j.
  rewrite map_map. apply Forall2_map_both.
  intros [x y w h]. unfold shifted, Box_eq, of_nat. simpl.
  repeat split; ring.
Qed.

(** ** Anchor template generation *)

Section GenerateAnchorsFurther.

Local Open Scope R_scope.

Lemma np_round_integral (x : fnum) : integral (np_round x).
Proof.
  destruct x as [a|]; [right | left]; simpl; eauto.
Qed.

(** X9.  [generate_anchors] returns the empty box set when there is no
    scale or no ratio. *)
Theorem X9_generate_anchors_empty (base_size : R) (ratios scales : list R) :
  generate_anchors base_size ratios [] = []
  /\ generate_anchors base_size [] scales = [].
Proof.
  rewrite !generate_anchors_closed. simpl. split; [reflexivity|].
  apply concat_map_nil.
Qed.

(** X10.  Every coordinate of every box [generate_anchors] returns is an
    integer, or is inf or nan: the anchors that are finite are
    pixel-aligned, whatever the ratios and the scales are. *)
Theorem X10_generate_anchors_integral (base_size : R)
  (ratios scales : list R) :
  Forall integral_box (generate_anchors base_size ratios scales).
Proof.
  rewrite generate_anchors_closed. apply Forall_forall. intros b Hb.
  apply in_concat in Hb. destruct Hb as [l [Hl Hb]].
  apply in_map_iff in Hl. destruct Hl as [s [<- _]].
  apply in_map_iff in Hb. destruct Hb as [r [<- _]].
  unfold integral_box, round_box.
  cbn [a0 a1 a2 a3].
  repeat split; apply np_round_integral.
Qed.

(** X12.  Reciprocal ratios give transposed boxes: for a positive ratio r
    the unrounded box of ratio 1/r has the width and the height of the box
    of ratio r exchanged, and the same centre. *)
Theorem X12_reciprocal_ratio_transposes (base_size s r : R) :
  0 < r ->
  let t := anchor_unrounded base_size s r in
  let t' := anchor_unrounded base_size s (1 / r) in
  a2 t' = a3 t /\ a3 t' = a2 t /\ a0 t' = a0 t /\ a1 t' = a1 t.
Proof.
  intros Hpos t t'. subst t t'.
  assert (Hinv : 0 < 1 / r) by (apply Rdiv_lt_0_compat; lra).
  destruct (anchor_unrounded_pos base_size s r Hpos) as [-> ->].
  destruct (anchor_unrounded_pos base_size s (1 / r) Hinv) as [-> ->].
  pose proof (sqrt_lt_R0 r Hpos) as P.
  assert (E : sqrt (1 / r) = / sqrt r).
  { unfold Rdiv. rewrite Rmult_1_l. apply sqrt_inv. }
  rewrite E.
  split; [reflexivity|]. split; [|split; reflexivity].
  f_equal. field. lra.
Qed.

Lemma X12_reciprocal_ratio_transposes_witness :
  let t := anchor_unrounded 16 32 2 in
  let t' := anchor_unrounded 16 32 (1 / 2) in
  a2 t' = a3 t /\ a3 t' = a2 t /\ a0 t' = a0 t /\ a1 t' = a1 t.
Proof.
  apply (X12_reciprocal_ratio_transposes 16 32 2). lra.
Defined.

End GenerateAnchorsFurther.

(** ** Pairwise IoU, host-numeric *)

(** X14.  Two centre-form boxes of which one lies entirely to one side of
    the other, or above or below it (touching edges included), have
    IoU 0. *)
Theorem X14_disjoint_boxes_iou_zero (bb1 bb2 : boxes) (i j : nat)
  (a b : Box) :
  nth_error (as_2d bb1) i = Some a -> nth_error (as_2d bb2) j = Some b ->
  b0 a + half * b2 a <= b0 b - half * b2 b
  \/ b0 b + half * b2 b <= b0 a - half * b2 a
  \/ b1 a + half * b3 a <= b1 b - half * b3 b
  \/ b1 b + half * b3 b <= b1 a - half * b3 a ->
  get (numpy_IoU_xyctrs bb1 bb2)
    (pair_index (length (as_2d bb1)) (length (as_2d bb2)) i j)
  = Some (Fin 0).
Proof.
  intros Ha Hb H. rewrite (xyctrs_entry bb1 bb2 i j a b Ha Hb).
  unfold iou_xyctrs. rewrite masked_iou_degenerate; [reflexivity|].
  unfold w_xyctrs, h_xyctrs, x1_xyctrs, x2_xyctrs, y1_xyctrs, y2_xyctrs.
  pose proof (Q.le_min_l (b0 a + half * b2 a) (b0 b + half * b2 b)).
  pose proof (Q.le_min_r (b0 a + half * b2 a) (b0 b + half * b2 b)).
  pose proof (Q.le_max_l (b0 a - half * b2 a) (b0 b - half * b2 b)).
  pose proof (Q.le_max_r (b0 a - half * b2 a) (b0 b - half * b2 b)).
  pose proof (Q.le_min_l (b1 a + half * b3 a) (b1 b + half * b3 b)).
  pose proof (Q.le_min_r (b1 a + half * b3 a) (b1 b + half * b3 b)).
  pose proof (Q.le_max_l (b1 a - half * b3 a) (b1 b - half * b3 b)).
  pose proof (Q.le_max_r (b1 a - half * b3 a) (b1 b - half * b3 b)).
  destruct H as [H|[H|[H|H]]]; [left | left | right; left | right; left];
    lra.
Qed.

Lemma X14_disjoint_boxes_iou_zero_witness :
  get (numpy_IoU_xyctrs (OneBox (mkBox 0 0 10 10))
         (BoxSet [mkBox 0 0 10 10; mkBox 10 0 10 10]))
    (pair_index 1 2 0 1)
  = Some (Fin 0).
Proof.
  apply (X14_disjoint_boxes_iou_zero (OneBox (mkBox 0 0 10 10))
           (BoxSet [mkBox 0 0 10 10; mkBox 10 0 10 10]) 0%nat 1%nat
           (mkBox 0 0 10 10) (mkBox 10 0 10 10)); try reflexivity.
  left. vm_compute. discriminate.
Defined.

Lemma iou_minmax_sym (a b : Box) : fval_eq (iou_minmax a b) (iou_minmax b a).
Proof.
  assert (W : w_minmax a b == w_minmax b a).
  { unfold w_minmax. now rewrite (Q.min_comm (b2 a)), (Q.max_comm (b0 a)). }
  assert (H : h_minmax a b == h_minmax b a).
  { unfold h_minmax. now rewrite (Q.min_comm (b3 a)), (Q.max_comm (b1 a)). }
  unfold iou_minmax. apply masked_iou_proper; [exact W | exact H |].
  unfold denom_minmax. rewrite W, H. ring.
Qed.

(** X15.  [numpy_IoU_minmax] is symmetric as well: the entry of the pair
    (i, j) of [numpy_IoU_minmax(A, B)] equals the entry of the pair (j, i)
    of [numpy_IoU_minmax(B, A)]. *)
Theorem X15_iou_minmax_transpose (A B : boxes) (i j : nat) (a b : Box) :
  nth_error (as_2d A) i = Some a -> nth_error (as_2d B) j = Some b ->
  exists x y : fval,
    get (numpy_IoU_minmax A B)
      (pair_index (length (as_2d A)) (length (as_2d B)) i j) = Some x
    /\ get (numpy_IoU_minmax B A)
         (pair_index (length (as_2d B)) (length (as_2d A)) j i) = Some y
    /\ fval_eq x y.
Proof.
  intros Ha Hb. exists (iou_minmax a b), (iou_minmax b a).
  split; [|split].
  - apply minmax_entry; assumption.
  - apply minmax_entry; assumption.
  - apply iou_minmax_sym.
Qed.

Lemma X15_iou_minmax_transpose_witness :
  exists x y : fval,
    get (numpy_IoU_minmax (OneBox (mkBox 0 0 10 10))
           (BoxSet [mkBox 1 1 2 2; mkBox 5 5 15 15]))
      (pair_index 1 2 0 1) = Some x
    /\ get (numpy_IoU_minmax (BoxSet [mkBox 1 1 2 2; mkBox 5 5 15 15])
              (OneBox (mkBox 0 0 10 10)))
         (pair_index 2 1 1 0) = Some y
    /\ fval_eq x y.
Proof.
  apply (X15_iou_minmax_transpose (OneBox (mkBox 0 0 10 10))
           (BoxSet [mkBox 1 1 2 2; mkBox 5 5 15 15]) 0%nat 1%nat
           (mkBox 0 0 10 10) (mkBox 5 5 15 15)); reflexivity.
Defined.







(** ** Empty box sets *)

Lemma list_prod_nil_r {A B : Type} (l : list A) :
  list_prod l (@nil B) = [].
Proof. induction l as [|x l IH]; simpl; auto. Qed.

(** X23.  An empty box set on either side gives a result with no entry,
    in both numpy functions; nothing raises. *)
Theorem X23_iou_of_empty_set (bb : boxes) :
  data (numpy_IoU_xyctrs (BoxSet []) bb) = []
  /\ data (numpy_IoU_xyctrs bb (BoxSet [])) = []
  /\ data (numpy_IoU_minmax (BoxSet []) bb) = []
  /\ data (numpy_IoU_minmax bb (BoxSet [])) = []
  /\ shape (numpy_IoU_xyctrs (BoxSet []) (BoxSet [])) = [0%nat; 0%nat].
Proof.
  rewrite !xyctrs_data, !minmax_data. simpl as_2d.
  rewrite !list_prod_nil_r. simpl. repeat split.
Qed.
